(** * hub.core.linked_chunk_engine: a shallow embedding of [LinkedChunkEngine]

    The Python class [LinkedChunkEngine] (src/hub/core/linked_chunk_engine.py)
    is embedded as functions over an explicit engine state.  Exceptions are
    values of type [exn]; a method is a state transformer that returns either
    a value or a raised exception, and the state it leaves behind is kept in
    both cases, as Python keeps every mutation made before a [raise]. *)

From Stdlib Require Import ZArith Lia.
From stdpp Require Import base gmap sets list strings.

Open Scope string_scope.

(** ** Python-level data *)

(** A credential key is an [Optional[str]]: [None] is Python's [None]. *)
Definition creds_key : Type := option string.

(** The pieces of an f-string: literal text and the formatted values that the
    engine interpolates. *)
Inductive fragment :=
| Lit (s : string)
| KeySetRepr (keys : gset creds_key)   (* [{missing_used_keys}] *)
| TypeRepr (cls : string).             (* [{type(sample)}] *)

Definition message : Type := list fragment.

Inductive exn_class :=
| TypeError
| ValueError
| KeyError
| AttributeError
| IndexError
| ReadOnlyModeError
| OtherError (name : string).

Global Instance exn_class_eq_dec : EqDecision exn_class.
Proof. solve_decision. Defined.

Record exn := Exn { exn_cls : exn_class; exn_msg : message }.

Inductive result (A : Type) :=
| Ok (a : A)
| Raise (e : exn).
Arguments Ok {A} a.
Arguments Raise {A} e.

Definition is_ok {A} (r : result A) : bool :=
  match r with Ok _ => true | Raise _ => false end.

(** [hub.core.linked_sample.LinkedSample] *)
Record LinkedSample := mkLinkedSample { path : string; creds_key_of : creds_key }.

(** [hub.core.index.IndexEntry.value]: an integer or a slice. *)
Inductive index_value :=
| IInt (n : Z)
| ISlice (start stop step : option Z).

(** The [index] argument of the read methods: the callers pass an [Index]
    object (its [values] list); a bare [int] is the only other case the code
    itself tests for. *)
Inductive py_index :=
| PyInt (n : Z)
| PyIndex (values : list index_value).

(** ** numpy arrays, as far as the engine touches them *)

Record ndarray (Elem : Type) := mkArray { shape : list nat; data : list Elem }.
Arguments mkArray {Elem} shape data.
Arguments shape {Elem} _.
Arguments data {Elem} _.

Definition ndim {Elem} (a : ndarray Elem) : nat := length (shape a).
Definition size_of_shape (sh : list nat) : nat := foldr Nat.mul 1 sh.

(** [np.ones(shape)] *)
Definition np_ones {Elem} (one : Elem) (sh : list nat) : ndarray Elem :=
  mkArray sh (replicate (size_of_shape sh) one).

(** [a.squeeze(axis)]: a NEW array without the given length-one axis; the
    receiver is not modified.  numpy raises [ValueError] when the axis is not
    of length one. *)
Definition squeeze {Elem} (a : ndarray Elem) (axis : nat) : result (ndarray Elem) :=
  match shape a !! axis with
  | Some 1 => Ok (mkArray (take axis (shape a) ++ drop (S axis) (shape a)) (data a))
  | _ => Raise (Exn ValueError [Lit "cannot select an axis to squeeze out which has size not equal to one"])
  end.

(** ** The run-length index behind [CredsEncoder] *)

Module RunLength.

(** Modelled from the spec: hub.core.meta.encode.creds.CredsEncoder is not
    among the sources.  Spec section 3: an ordered sequence of
    [(value, run_length)] pairs covering [0, total) without gaps; lookup is a
    prefix-sum search; appending [count] copies of [value] merges into the
    last run if the values match, else adds a new run. *)
Definition t : Type := list (Z * nat).

Definition empty : t := [].

Definition num_samples (enc : t) : nat := sum_list (snd <$> enc).

Fixpoint register_samples (v : Z) (count : nat) (enc : t) : t :=
  match enc with
  | [] => [(v, count)]
  | (w, k) :: rest =>
      match rest with
      | [] => if bool_decide (w = v) then [(w, k + count)] else [(w, k); (v, count)]
      | _ :: _ => (w, k) :: register_samples v count rest
      end
  end.

Fixpoint lookup_run (i : nat) (enc : t) : option Z :=
  match enc with
  | [] => None
  | (v, k) :: rest => if decide (i < k) then Some v else lookup_run (i - k) rest
  end.

(** [enc.get_encoded_creds_key(global_sample_index)] *)
Definition get_encoded_creds_key (enc : t) (i : Z) : result Z :=
  if decide (0 ≤ i)%Z then
    match lookup_run (Z.to_nat i) enc with
    | Some v => Ok v
    | None => Raise (Exn IndexError [Lit "sample index out of range"])
    end
  else Raise (Exn IndexError [Lit "sample index out of range"]).

End RunLength.

(** Python objects are referred to by identity; the encoders live in a store
    indexed by object id, and [CredsEncoder()] allocates the next id. *)
Definition oid : Type := nat.

(** ** Methods as state transformers that may raise

    [ST S A] is a computation over a mutable state [S] that returns an [A] or
    raises; the state reached is kept in both cases. *)
Section StateAndExceptions.
Context {S : Type}.

Definition ST (A : Type) : Type := S → result A * S.

Definition ret {A} (a : A) : ST A := λ st, (Ok a, st).
Definition raise {A} (e : exn) : ST A := λ st, (Raise e, st).
Definition bind {A B} (m : ST A) (k : A → ST B) : ST B := λ st,
  match m st with
  | (Ok a, st') => k a st'
  | (Raise e, st') => (Raise e, st')
  end.
Definition lift {A} (r : result A) : ST A := λ st, (r, st).
Definition gets {A} (f : S → A) : ST A := λ st, (Ok (f st), st).
Definition modify (f : S → S) : ST unit := λ st, (Ok tt, f st).

(** [try: body  except cls: handler] *)
Definition try_except {A} (body : ST A) (cls : exn_class) (handler : ST A) : ST A := λ st,
  match body st with
  | (Ok a, st') => (Ok a, st')
  | (Raise e, st') =>
      if bool_decide (exn_cls e = cls) then handler st' else (Raise e, st')
  end.

(** [for x in xs: body(x)] *)
Fixpoint for_each {A} (xs : list A) (body : A → ST unit) : ST unit :=
  match xs with
  | [] => ret tt
  | x :: rest => bind (body x) (λ _, for_each rest body)
  end.

End StateAndExceptions.
Arguments ST S A : clear implicits.

Global Instance ST_ret {S} : MRet (ST S) := @ret S.
Global Instance ST_bind {S} : MBind (ST S) := λ A B k m, bind m k.

(** ** What linked_chunk_engine.py imports

    The engine calls into modules whose code is not part of this development
    (hub.core.link_creds, hub.core.storage, hub.core.tensor,
    hub.core.tensor_link, hub.core.compression, hub.util) and into its
    superclass [ChunkEngine].  They are taken as an interface: every theorem
    below holds for all implementations of it.  A call that may raise returns a
    [result]; a call that may change its receiver returns the new receiver. *)
Class Imports := {
  (* hub.core.link_creds.LinkCreds *)
  LinkCreds : Type;
  Storage : Type;
  missing_keys : LinkCreds → list creds_key;
  used_creds_keys : LinkCreds → gset creds_key;
  get_encoding : LinkCreds → creds_key → option string → result Z;
  get_creds_key : LinkCreds → Z → result creds_key;
  add_to_used_creds : LinkCreds → creds_key → bool * LinkCreds;
  get_storage_provider : LinkCreds → creds_key → string → result Storage * LinkCreds;
  get_presigned_url : Storage → string → bool → result string;
  (* hub.core.storage.LRUCache, holding encoder objects by identity *)
  LRUCache : Type;
  cache_getitem : LRUCache → string → result unit * LRUCache;
  cache_setitem : LRUCache → string → oid → result unit * LRUCache;
  get_hub_object :
    LRUCache → list RunLength.t → string → result oid * (LRUCache * list RunLength.t);
  register_hub_object : LRUCache → string → oid → result unit * LRUCache;
  (* hub.util.keys, hub.util.link *)
  get_creds_encoder_key : string → string → string;
  get_path_creds_key : option LinkedSample → option string * creds_key;
  (* hub.util.link.save_link_creds(link_creds, cache) and
     warn_missing_managed_creds(link_creds): each returns None or raises
     (the save writes through the cache, the warning may be turned into an
     error by the warning filters) *)
  util_save_link_creds : LinkCreds → result unit;
  util_warn_missing_managed_creds : LinkCreds → result unit;
  (* hub.core.tensor.Tensor *)
  Tensor : Type;
  is_link : Tensor → bool;
  _linked_sample : Tensor → result LinkedSample;
  (* hub.core.tensor_link, numpy *)
  HubReadSample : Type;
  Elem : Type;
  one : Elem;
  read_linked_sample : string → creds_key → LinkCreds → bool → result HubReadSample;
  sample_array : HubReadSample → result (ndarray Elem);
  ndarray_getitem : ndarray Elem → list index_value → result (ndarray Elem);
  (* hub.core.compression, hub.util.video *)
  _read_video_shape : string → result (list Z);
  normalize_index : option index_value → Z → result (Z * Z * Z * bool);
  _decompress_video : string → Z → Z → Z → bool → result (ndarray Elem);
  (* ChunkEngine.get_basic_sample, the superclass method behind [get_path] *)
  super_get_basic_sample : Z → py_index → result (list string)
}.

Section Engine.
Context `{Imports}.

(** The two effects [register_new_creds] and [update_creds] trigger outside
    the engine: [save_link_creds(self.link_creds, self.cache)] and
    [warn_missing_managed_creds(self.link_creds)], each recorded with the
    registry it was called on. *)
Inductive event :=
| SaveLinkCreds (lc : LinkCreds)
| WarnMissingManagedCreds (lc : LinkCreds).

(** The fields of a [LinkedChunkEngine] the methods read or write, the
    store of encoder objects and the log of outside effects. *)
Record engine := mkEngine {
  key : string;
  commit_id : string;
  meta_cache : LRUCache;
  link_creds : LinkCreds;
  _creds_encoder : option oid;
  _creds_encoder_commit_id : option string;
  tensor_meta_is_link : bool;
  tensor_meta_verify : bool;
  objects : list RunLength.t;
  log : list event
}.

Definition set_meta_cache (mc : LRUCache) (st : engine) : engine :=
  mkEngine (key st) (commit_id st) mc (link_creds st) (_creds_encoder st)
    (_creds_encoder_commit_id st) (tensor_meta_is_link st) (tensor_meta_verify st)
    (objects st) (log st).
Definition set_link_creds (lc : LinkCreds) (st : engine) : engine :=
  mkEngine (key st) (commit_id st) (meta_cache st) lc (_creds_encoder st)
    (_creds_encoder_commit_id st) (tensor_meta_is_link st) (tensor_meta_verify st)
    (objects st) (log st).
Definition set__creds_encoder (e : option oid) (st : engine) : engine :=
  mkEngine (key st) (commit_id st) (meta_cache st) (link_creds st) e
    (_creds_encoder_commit_id st) (tensor_meta_is_link st) (tensor_meta_verify st)
    (objects st) (log st).
Definition set__creds_encoder_commit_id (c : option string) (st : engine) : engine :=
  mkEngine (key st) (commit_id st) (meta_cache st) (link_creds st) (_creds_encoder st)
    c (tensor_meta_is_link st) (tensor_meta_verify st) (objects st) (log st).
Definition set_objects (os : list RunLength.t) (st : engine) : engine :=
  mkEngine (key st) (commit_id st) (meta_cache st) (link_creds st) (_creds_encoder st)
    (_creds_encoder_commit_id st) (tensor_meta_is_link st) (tensor_meta_verify st)
    os (log st).
Definition set_log (l : list event) (st : engine) : engine :=
  mkEngine (key st) (commit_id st) (meta_cache st) (link_creds st) (_creds_encoder st)
    (_creds_encoder_commit_id st) (tensor_meta_is_link st) (tensor_meta_verify st)
    (objects st) l.

(** [self.commit_id] reads the version state shared with the dataset; a
    checkout or a commit makes it name another commit. *)
Definition checkout (c : string) (st : engine) : engine :=
  mkEngine (key st) c (meta_cache st) (link_creds st) (_creds_encoder st)
    (_creds_encoder_commit_id st) (tensor_meta_is_link st) (tensor_meta_verify st)
    (objects st) (log st).

(** A method of the engine. *)
Abbreviation M := (ST engine).

(** *** The meta cache and the object store, seen from the engine *)

(** [self.meta_cache[key]] *)
Definition meta_cache_getitem (k : string) : M unit := λ st,
  let '(r, mc) := cache_getitem (meta_cache st) k in (r, set_meta_cache mc st).

(** [self.meta_cache[key] = enc] *)
Definition meta_cache_setitem (k : string) (enc : oid) : M unit := λ st,
  let '(r, mc) := cache_setitem (meta_cache st) k enc in (r, set_meta_cache mc st).

(** [self.meta_cache.get_hub_object(key, CredsEncoder)] *)
Definition meta_cache_get_hub_object (k : string) : M oid := λ st,
  let '(r, (mc, os)) := get_hub_object (meta_cache st) (objects st) k in
  (r, set_objects os (set_meta_cache mc st)).

(** [self.meta_cache.register_hub_object(key, enc)] *)
Definition meta_cache_register_hub_object (k : string) (enc : oid) : M unit := λ st,
  let '(r, mc) := register_hub_object (meta_cache st) k enc in (r, set_meta_cache mc st).

(** [CredsEncoder()]: a new, empty encoder object. *)
Definition new_CredsEncoder : M oid := λ st,
  (Ok (length (objects st)), set_objects (objects st ++ [RunLength.empty]) st).

(** *** [creds_encoder_exists] (lines 56-69) *)
Definition creds_encoder_exists : M bool :=
  commit ← gets commit_id;
  cached ← gets _creds_encoder;
  cached_commit ← gets _creds_encoder_commit_id;
  if bool_decide (cached ≠ None) && bool_decide (cached_commit = Some commit)
  then mret true
  else
    try_except
      (k ← gets (λ st, get_creds_encoder_key (key st) commit);
       meta_cache_getitem k;;
       mret true)
      KeyError
      (mret false).

(** *** [creds_encoder] (lines 37-54) *)
Definition creds_encoder : M (option oid) :=
  commit ← gets commit_id;
  cached ← gets _creds_encoder;
  cached_commit ← gets _creds_encoder_commit_id;
  (if bool_decide (cached = None) || bool_decide (cached_commit ≠ Some commit)
   then
     commit ← gets commit_id;
     k ← gets (λ st, get_creds_encoder_key (key st) commit);
     present ← creds_encoder_exists;
     enc ← (if negb present
            then
              enc ← new_CredsEncoder;
              try_except (meta_cache_setitem k enc) ReadOnlyModeError (mret tt);;
              mret enc
            else meta_cache_get_hub_object k);
     modify (set__creds_encoder (Some enc));;
     modify (set__creds_encoder_commit_id (Some commit));;
     meta_cache_register_hub_object k enc
   else mret tt);;
  gets _creds_encoder.


(** *** [verify] (lines 135-137) *)
Definition verify (self : engine) : bool :=
  tensor_meta_is_link self && tensor_meta_verify self.


(** *** The encoder object behind a reference *)

(** [enc.get_encoded_creds_key(i)] on the object [enc] refers to *)
Definition encoder_get_encoded_creds_key (enc : option oid) (i : Z) : M Z :=
  match enc with
  | None =>
      raise (Exn AttributeError
               [Lit "'NoneType' object has no attribute 'get_encoded_creds_key'"])
  | Some o =>
      os ← gets objects;
      match os !! o with
      | Some e => lift (RunLength.get_encoded_creds_key e i)
      | None => raise (Exn (OtherError "ReferenceError") [Lit "no such object"])
      end
  end.

(** [enc.register_samples((v,), count)]: the object is updated in place. *)
Definition encoder_register_samples (enc : option oid) (v : Z) (count : nat) : M unit :=
  match enc with
  | None =>
      raise (Exn AttributeError
               [Lit "'NoneType' object has no attribute 'register_samples'"])
  | Some o =>
      os ← gets objects;
      match os !! o with
      | Some e => modify (set_objects (<[o := RunLength.register_samples v count e]> os))
      | None => raise (Exn (OtherError "ReferenceError") [Lit "no such object"])
      end
  end.

(** *** [get_path] (lines 121-124) *)
Definition get_path (global_sample_index : Z) : M string :=
  arr ← lift (super_get_basic_sample global_sample_index
                (PyIndex [IInt global_sample_index]));
  match arr with
  | p :: _ => mret p
  | [] => raise (Exn IndexError [Lit "index 0 is out of bounds"])
  end.

(** *** [linked_sample] (lines 75-80) *)
Definition linked_sample (global_sample_index : Z) : M LinkedSample :=
  enc ← creds_encoder;
  sample_path ← get_path global_sample_index;
  sample_creds_encoded ← encoder_get_encoded_creds_key enc global_sample_index;
  lc ← gets link_creds;
  sample_creds_key ← lift (get_creds_key lc sample_creds_encoded);
  mret (mkLinkedSample sample_path sample_creds_key).

(** [s.startswith(p)] *)
Definition startswith (s p : string) : bool := String.prefix p s.

(** [sample_path.startswith(("gcs://", "gcp://", "s3://"))] *)
Definition is_object_storage_path (sample_path : string) : bool :=
  startswith sample_path "gcs://" || startswith sample_path "gcp://"
  || startswith sample_path "s3://".

(** [self.link_creds.get_storage_provider(key, provider_type)] *)
Definition link_creds_get_storage_provider (k : creds_key) (provider_type : string)
  : M Storage := λ st,
  let '(r, lc) := get_storage_provider (link_creds st) k provider_type in
  (r, set_link_creds lc st).

(** *** [get_video_url] (lines 82-96) *)
Definition get_video_url (global_sample_index : Z) : M string :=
  enc ← creds_encoder;
  sample_path ← get_path global_sample_index;
  sample_creds_encoded ← encoder_get_encoded_creds_key enc global_sample_index;
  lc ← gets link_creds;
  sample_creds_key ← lift (get_creds_key lc sample_creds_encoded);
  if is_object_storage_path sample_path then
    let provider_type := if startswith sample_path "s3://" then "s3" else "gcs" in
    storage ← link_creds_get_storage_provider sample_creds_key provider_type;
    url ← lift (get_presigned_url storage sample_path true);
    mret url
  else
    mret sample_path.

(** [index.values], an attribute only [Index] objects have *)
Definition index_values (index : py_index) : M (list index_value) :=
  match index with
  | PyIndex values => mret values
  | PyInt _ => raise (Exn AttributeError [Lit "'int' object has no attribute 'values'"])
  end.

(** [isinstance(index, int)] *)
Definition isinstance_int (index : py_index) : bool :=
  match index with PyInt _ => true | PyIndex _ => false end.

(** *** [get_video_sample] (lines 98-113) *)
Definition get_video_sample (global_sample_index : Z) (index : py_index)
  : M (ndarray Elem) :=
  url ← get_video_url global_sample_index;
  let squeeze_flag := isinstance_int index in
  shape ← lift (_read_video_shape url);
  values ← index_values index;
  let sub_index := if decide (1 < length values) then values !! 1 else None in
  nframes ← match shape with
            | n :: _ => mret n
            | [] => raise (Exn IndexError [Lit "tuple index out of range"])
            end;
  '(start, stop, step, reverse) ← lift (normalize_index sub_index nframes);
  video_sample ← lift (_decompress_video url start stop step reverse);
  (if squeeze_flag
   then lift (squeeze video_sample 0);; mret tt   (* the result is dropped *)
   else mret tt);;
  mret video_sample.

(** *** [get_hub_read_sample] (lines 126-133) *)
Definition get_hub_read_sample (global_sample_index : Z) : M (option HubReadSample) :=
  enc ← creds_encoder;
  sample_path ← get_path global_sample_index;
  if bool_decide (sample_path = "") then mret None
  else
    sample_creds_encoded ← encoder_get_encoded_creds_key enc global_sample_index;
    lc ← gets link_creds;
    sample_creds_key ← lift (get_creds_key lc sample_creds_encoded);
    r ← lift (read_linked_sample sample_path sample_creds_key lc false);
    mret (Some r).

(** *** [get_basic_sample] (lines 115-119) *)
Definition get_basic_sample (global_sample_index : Z) (index : py_index)
    (fetch_chunks : bool) : M (ndarray Elem) :=
  sample ← get_hub_read_sample global_sample_index;
  match sample with
  | None => mret (np_ones one [0])
  | Some s =>
      arr ← lift (sample_array s);
      values ← index_values index;
      lift (ndarray_getitem arr (drop 1 values))
  end.

(** *** [check_each_sample] (lines 139-167) *)

(** What a caller can put in the list: [None], a [LinkedSample], a [Tensor]
    view, or an object of any other class (named by its class). *)
Inductive pyobj :=
| PyNone
| PyLinkedSample (ls : LinkedSample)
| PyTensor (t : Tensor)
| PyOther (cls : string).

(** The class [type(sample)] prints. *)
Definition type_of (o : pyobj) : string :=
  match o with
  | PyNone => "NoneType"
  | PyLinkedSample _ => "hub.core.linked_sample.LinkedSample"
  | PyTensor _ => "hub.core.tensor.Tensor"
  | PyOther cls => cls
  end.

Definition expected_linked_sample (o : pyobj) : exn :=
  Exn TypeError
    [Lit "Expected LinkedSample, got "; TypeRepr (type_of o);
     Lit " instead. Use hub.link() to link samples."].

(** An element of [verified_samples]: the sample itself (for [None] and
    for an empty path) or what [read_linked_sample] returned. *)
Inductive verified :=
| Unread (sample : option LinkedSample)
| Loaded (r : HubReadSample).

(** Lines 143-149: the [isinstance] dispatch on the [i]-th element.  A
    link tensor is resolved and written back to [samples[i]]. *)
Definition resolve_sample (i : nat) (sample : pyobj)
  : ST (list pyobj) (option LinkedSample) :=
  match sample with
  | PyTensor t =>
      if is_link t then
        ls ← lift (_linked_sample t);
        modify (λ samples, <[i := PyLinkedSample ls]> samples);;
        mret (Some ls)
      else raise (expected_linked_sample sample)
  | PyLinkedSample ls => mret (Some ls)
  | PyNone => mret None
  | PyOther _ => raise (expected_linked_sample sample)
  end.

(** Lines 151-166: the credential check and the read of one sample. *)
Definition verify_sample (self : engine) (sample : option LinkedSample)
  : result verified :=
  let '(p, creds_key) := get_path_creds_key sample in
  match get_encoding (link_creds self) creds_key p with
  | Raise e => Raise e
  | Ok _ =>
      match sample with
      | None => Ok (Unread None)
      | Some ls =>
          if bool_decide (path ls = "") then Ok (Unread (Some ls))
          else
            match read_linked_sample (path ls) (creds_key_of ls) (link_creds self)
                    (verify self) with
            | Ok r => Ok (Loaded r)
            | Raise e => Raise e
            end
      end
  end.

(** The loop [for i, sample in enumerate(samples)]: the list iterator reads
    [samples[i]] from the list as it is at that moment and stops when [i]
    reaches its end; [n] bounds the number of iterations. *)
Fixpoint check_each_sample_from (self : engine) (n i : nat)
    (verified_samples : list verified) : ST (list pyobj) (list verified) :=
  match n with
  | 0 => mret verified_samples
  | S n' =>
      current ← gets (λ samples : list pyobj, samples !! i);
      match current with
      | None => mret verified_samples
      | Some sample =>
          sample ← resolve_sample i sample;
          v ← lift (verify_sample self sample);
          check_each_sample_from self n' (S i) (verified_samples ++ [v])
      end
  end.

Definition check_each_sample (self : engine) : ST (list pyobj) (list verified) :=
  n ← gets (λ samples : list pyobj, length samples);
  check_each_sample_from self n 0 [].

(** *** [register_new_creds] (lines 169-180) *)

(** [link_creds.add_to_used_creds(creds_key)] *)
Definition link_creds_add_to_used_creds (k : creds_key) : M bool := λ st,
  let '(b, lc) := add_to_used_creds (link_creds st) k in (Ok b, set_link_creds lc st).

(** [save_link_creds(self.link_creds, self.cache)]: the call is logged, and
    it returns or raises as the imported function does. *)
Definition save_link_creds : M unit := λ st,
  (util_save_link_creds (link_creds st),
   set_log (log st ++ [SaveLinkCreds (link_creds st)]) st).

(** [warn_missing_managed_creds(self.link_creds)]: likewise. *)
Definition warn_missing_managed_creds : M unit := λ st,
  (util_warn_missing_managed_creds (link_creds st),
   set_log (log st ++ [WarnMissingManagedCreds (link_creds st)]) st).

(** [samples[i]] *)
Definition list_getitem {A} (l : list A) (i : nat) : result A :=
  match l !! i with
  | Some x => Ok x
  | None => Raise (Exn IndexError [Lit "list index out of range"])
  end.

(** The body of the loop, lines 174-180. *)
Definition register_new_creds_body (enc : option oid)
    (samples : list (option LinkedSample)) (i : nat) : M unit :=
  sample ← lift (list_getitem samples i);
  let '(p, creds_key) := get_path_creds_key sample in
  lc ← gets link_creds;
  encoded_creds_key ← lift (get_encoding lc creds_key p);
  encoder_register_samples enc encoded_creds_key 1;;
  first_use ← link_creds_add_to_used_creds creds_key;
  if first_use : bool then
    save_link_creds;;
    warn_missing_managed_creds
  else mret tt.

Definition register_new_creds (num_samples_added : Z)
    (samples : list (option LinkedSample)) : M unit :=
  enc ← creds_encoder;
  for_each (seq 0 (Z.to_nat num_samples_added)) (register_new_creds_body enc samples).

(** *** [check_link_ready] (lines 218-225) *)

Definition creds_not_populated (missing_used_keys : gset creds_key) : exn :=
  Exn ValueError
    [Lit "Creds keys "; KeySetRepr missing_used_keys;
     Lit " are used in the data but not populated. Please populate the dataset using ds.populate_creds()."].

Definition check_link_ready : M unit :=
  missing ← gets (λ st, missing_keys (link_creds st));
  creds_used ← gets (λ st, used_creds_keys (link_creds st));
  let missing_used_keys : gset creds_key :=
    list_to_set (filter (λ k, k ∈ creds_used) missing) in
  if bool_decide (missing_used_keys ≠ ∅)
  then raise (creds_not_populated missing_used_keys)
  else mret tt.

End Engine.

(** ** The methods that read through a chunk or rewrite one slot

    They call three more things that are not part of this development:
    the [shape] of a read sample, [CredsEncoder.__setitem__], and the chunk
    and chunk-id encoder of the superclass. *)
Class ChunkImports `{Imports} := {
  (* HubReadSample.shape *)
  sample_shape : HubReadSample → result (list nat);
  (* CredsEncoder.__setitem__ *)
  encoder_setitem : RunLength.t → Z → Z → result RunLength.t;
  (* hub.core.chunk.base_chunk.BaseChunk.read_sample *)
  BaseChunk : Type;
  chunk_read_sample : BaseChunk → Z → bool → bool → bool → result (list string);
  (* self.chunk_id_encoder.translate_index_relative_to_chunks *)
  translate_index_relative_to_chunks : Z → result Z
}.

Section ChunkMethods.
Context `{ChunkImports}.

Abbreviation M := (ST engine).

(** [enc[sample_index] = (v,)] on the object [enc] refers to: the object is
    updated in place. *)
Definition encoder_setitem_at (enc : option oid) (sample_index : Z) (v : Z) : M unit :=
  match enc with
  | None =>
      raise (Exn TypeError [Lit "'NoneType' object does not support item assignment"])
  | Some o =>
      os ← gets objects;
      match os !! o with
      | Some e =>
          e' ← lift (encoder_setitem e sample_index v);
          modify (set_objects (<[o := e']> os))
      | None => raise (Exn (OtherError "ReferenceError") [Lit "no such object"])
      end
  end.

(** *** [update_creds] (lines 182-189) *)
Definition update_creds (sample_index : Z) (sample : option LinkedSample) : M unit :=
  lc ← gets link_creds;
  let '(p, creds_key) := get_path_creds_key sample in
  encoded_creds_key ← lift (get_encoding lc creds_key p);
  enc ← creds_encoder;
  encoder_setitem_at enc sample_index encoded_creds_key;;
  first_use ← link_creds_add_to_used_creds creds_key;
  if first_use : bool then
    save_link_creds;;
    warn_missing_managed_creds
  else mret tt.

(** *** [read_shape_for_sample] (lines 191-195) *)
Definition read_shape_for_sample (global_sample_index : Z) : M (list nat) :=
  sample ← get_hub_read_sample global_sample_index;
  match sample with
  | None => mret [0]
  | Some s => lift (sample_shape s)
  end.

(** What [read_sample_from_chunk] returns: the array of length zero, or the
    sample [read_linked_sample] returned, as it is. *)
Inductive chunk_sample :=
| EmptyArray (a : ndarray Elem)
| LinkedRead (r : HubReadSample).

(** *** [read_sample_from_chunk] (lines 197-216) *)
Definition read_sample_from_chunk (global_sample_index : Z) (chunk : BaseChunk)
    (cast copy decompress : bool) : M chunk_sample :=
  local_sample_index ← lift (translate_index_relative_to_chunks global_sample_index);
  arr ← lift (chunk_read_sample chunk local_sample_index cast copy decompress);
  sample_path ← match arr with
                | p :: _ => mret p
                | [] => raise (Exn IndexError [Lit "index 0 is out of bounds"])
                end;
  enc ← creds_encoder;
  if bool_decide (sample_path = "") then mret (EmptyArray (np_ones one [0]))
  else
    sample_creds_encoded ← encoder_get_encoded_creds_key enc global_sample_index;
    lc ← gets link_creds;
    sample_creds_key ← lift (get_creds_key lc sample_creds_encoded);
    r ← lift (read_linked_sample sample_path sample_creds_key lc false);
    mret (LinkedRead r).

End ChunkMethods.

(** ** hub.util.notebook *)

Module Notebook.

(** What the functions of the module look at: how the statement
    [from IPython import get_ipython] ends (it binds the name, or raises:
    [ImportError] when the package is absent, and any other exception when the
    package fails while it is loading), how the call [get_ipython()] ends
    ([None], a shell whose class lives in the named module, or a raise), and
    the names in [sys.modules].  Both functions are called in one
    environment: the import and the call end the same way each time. *)
Record env := mkEnv {
  import_get_ipython : result unit;
  get_ipython : result (option string);
  sys_modules : gset string
}.






(** [is_colab] (lines 25-26) *)
Definition is_colab (e : env) : bool := bool_decide ("google.colab" ∈ sys_modules e).

End Notebook.

(** ** The vocabulary of the properties *)

Section Vocabulary.
Context `{Imports}.
Local Open Scope list_scope.

(** The engine holds an encoder recorded for its current commit. *)
Definition holds_current_encoder (st : engine) : Prop :=
  _creds_encoder st ≠ None ∧ _creds_encoder_commit_id st = Some (commit_id st).

Global Instance holds_current_encoder_dec st : Decision (holds_current_encoder st).
Proof. unfold holds_current_encoder. apply _. Defined.

(** The key of the encoder of the current commit. *)
Definition current_key (st : engine) : string :=
  get_creds_encoder_key (key st) (commit_id st).

(** [obtained_for_current_commit st enc]: an access in the state [st] obtains
    the encoder [enc] for the current commit: it is the object the access
    creates, as the cache has no entry under the key of the current commit, or
    the object the cache loads under that key. *)
Definition obtained_for_current_commit (st : engine) (enc : oid) : Prop :=
  (enc = length (objects st)
   ∧ ∃ e mc, cache_getitem (meta_cache st) (current_key st) = (Raise e, mc)
             ∧ exn_cls e = KeyError)
  ∨ (∃ mc1 mc2 os, cache_getitem (meta_cache st) (current_key st) = (Ok tt, mc1)
       ∧ get_hub_object mc1 (objects st) (current_key st) = (Ok enc, (mc2, os))).


(** The variants [check_each_sample] lets through its type test: [None],
    a [LinkedSample], and a view of a link tensor. *)
Definition accepted_variant (o : pyobj) : bool :=
  match o with
  | PyNone | PyLinkedSample _ => true
  | PyTensor t => is_link t
  | PyOther _ => false
  end.

(** [resolves o s o']: the element [o] stands for the sample [s], and the
    list holds [o'] in its place afterwards. *)
Inductive resolves : pyobj → option LinkedSample → pyobj → Prop :=
| resolves_none : resolves PyNone None PyNone
| resolves_linked ls : resolves (PyLinkedSample ls) (Some ls) (PyLinkedSample ls)
| resolves_tensor t ls :
    is_link t = true → _linked_sample t = Ok ls →
    resolves (PyTensor t) (Some ls) (PyLinkedSample ls).

(** [checked self o o' v]: the element [o] passes, is left as [o'] and
    contributes [v] to the verified samples. *)
Definition checked (self : engine) (o o' : pyobj) (v : verified) : Prop :=
  ∃ s, resolves o s o' ∧ verify_sample self s = Ok v.

(** [fails_at self o o' e]: the element [o] stops the loop with [e], and the
    list holds [o'] in its place: the type test rejects it, the tensor view
    cannot be resolved, or the credential check or the read fails. *)
Definition fails_at (self : engine) (o o' : pyobj) (e : exn) : Prop :=
  (o' = o ∧ accepted_variant o = false ∧ e = expected_linked_sample o)
  ∨ (o' = o ∧ ∃ t, o = PyTensor t ∧ is_link t = true ∧ _linked_sample t = Raise e)
  ∨ (∃ s, resolves o s o' ∧ verify_sample self s = Raise e).

(** Registering one sample per code, in order. *)
Definition register_all (codes : list Z) (enc : RunLength.t) : RunLength.t :=
  foldl (λ e code, RunLength.register_samples code 1 e) enc codes.

(** Modelled from the spec: hub.core.link_creds.LinkCreds is not among the
    sources.  Spec sections 3 and 4.4: the registry tracks the keys
    referenced by stored samples, a key is never unmarked, and
    [add_to_used_creds(key)] marks at most [key] and answers [True] exactly
    when [key] is seen as used for the first time. *)
Definition marks_first_use : Prop :=
  ∀ lc k,
    used_creds_keys lc ⊆ used_creds_keys (add_to_used_creds lc k).2
    ∧ used_creds_keys (add_to_used_creds lc k).2 ⊆ used_creds_keys lc ∪ {[k]}
    ∧ ((add_to_used_creds lc k).1 = true
       ↔ (k ∉ used_creds_keys lc) ∧ k ∈ used_creds_keys (add_to_used_creds lc k).2).

(** [registers lc samples codes evs lc']: starting from the registry [lc],
    the samples are encoded one by one into [codes]; a sample whose key
    becomes used for the first time triggers a save and a warning, on the
    registry as it is then; any other sample triggers nothing; [lc'] is the
    registry in the end. *)
Inductive registers :
  LinkCreds → list (option LinkedSample) → list Z → list event → LinkCreds → Prop :=
| registers_nil lc : registers lc [] [] [] lc
| registers_first lc sample rest p k code codes evs lc1 lc' :
    get_path_creds_key sample = (p, k) →
    get_encoding lc k p = Ok code →
    lc1 = (add_to_used_creds lc k).2 →
    (k ∉ used_creds_keys lc) ∧ k ∈ used_creds_keys lc1 →
    registers lc1 rest codes evs lc' →
    registers lc (sample :: rest) (code :: codes)
      (SaveLinkCreds lc1 :: WarnMissingManagedCreds lc1 :: evs) lc'
| registers_again lc sample rest p k code codes evs lc1 lc' :
    get_path_creds_key sample = (p, k) →
    get_encoding lc k p = Ok code →
    lc1 = (add_to_used_creds lc k).2 →
    ¬ ((k ∉ used_creds_keys lc) ∧ k ∈ used_creds_keys lc1) →
    registers lc1 rest codes evs lc' →
    registers lc (sample :: rest) (code :: codes) evs lc'.

End Vocabulary.

(** ** A small implementation of the interface

    The examples at the end run the engine against this implementation. *)
Module Demo.

(** Modelled from the spec: hub.core.link_creds.LinkCreds is not among the
    sources.  Spec sections 3 and 4.5: credential keys are interned to small
    integer ids in the order they were declared (id 0 stands for "no
    credential"), a key is missing when it is declared but has no loaded
    secret, and [add_to_used_creds] tells whether the key is marked as used
    for the first time. *)
Record link_creds_t := mkLinkCreds {
  creds_keys : list string;
  populated : list string;
  used : list creds_key
}.

Definition d_missing_keys (lc : link_creds_t) : list creds_key :=
  Some <$> filter (λ k, k ∉ populated lc) (creds_keys lc).

Definition d_used_creds_keys (lc : link_creds_t) : gset creds_key :=
  list_to_set (used lc).

Fixpoint index_of (k : string) (l : list string) : option nat :=
  match l with
  | [] => None
  | x :: rest => if bool_decide (x = k) then Some 0 else S <$> index_of k rest
  end.

Definition d_get_encoding (lc : link_creds_t) (k : creds_key) (p : option string)
  : result Z :=
  match k with
  | None => Ok 0%Z
  | Some s =>
      match index_of s (creds_keys lc) with
      | Some n => Ok (Z.of_nat (S n))
      | None => Raise (Exn KeyError [Lit "Creds key does not exist"])
      end
  end.

Definition d_get_creds_key (lc : link_creds_t) (code : Z) : result creds_key :=
  if bool_decide (code = 0%Z) then Ok None
  else
    match creds_keys lc !! (Z.to_nat code - 1) with
    | Some s => if decide (0 < code)%Z then Ok (Some s)
                else Raise (Exn KeyError [Lit "unknown credential id"])
    | None => Raise (Exn KeyError [Lit "unknown credential id"])
    end.

Definition d_add_to_used_creds (lc : link_creds_t) (k : creds_key)
  : bool * link_creds_t :=
  if bool_decide (k ∈ used lc) then (false, lc)
  else (true, mkLinkCreds (creds_keys lc) (populated lc) (k :: used lc)).

(** A storage client is identified by the credential and the provider it
    was built for; building it needs the secret to be loaded. *)
Definition d_get_storage_provider (lc : link_creds_t) (k : creds_key)
    (provider_type : string) : result (creds_key * string) * link_creds_t :=
  match k with
  | Some s =>
      if bool_decide (s ∈ populated lc) then (Ok (k, provider_type), lc)
      else (Raise (Exn ValueError [Lit "Creds key has not been populated"]), lc)
  | None => (Ok (k, provider_type), lc)
  end.

Definition d_get_presigned_url (storage : creds_key * string) (p : string)
    (full : bool) : result string :=
  Ok ("https://signed.example/" ++ storage.2 ++ "/" ++ p).

(** Modelled from the spec: hub.core.storage.LRUCache is not among the
    sources.  Spec section 6: get an object by key or miss, put an object,
    register an in-memory instance as canonical for its key; a write raises
    the read-only-mode signal when the cache was opened read-only.  The
    cache holds what was written under a key ([entries]) and the instances
    registered as canonical ([registered]); a registered instance is found
    first. *)
Record cache_t := mkCache {
  entries : list (string * oid);
  registered : list (string * oid);
  read_only : bool
}.

Fixpoint assoc (k : string) (l : list (string * oid)) : option oid :=
  match l with
  | [] => None
  | (k', v) :: rest => if bool_decide (k' = k) then Some v else assoc k rest
  end.

Definition d_cache_getitem (c : cache_t) (k : string) : result unit * cache_t :=
  match assoc k (registered c ++ entries c) with
  | Some _ => (Ok tt, c)
  | None => (Raise (Exn KeyError [Lit k]), c)
  end.

Definition d_cache_setitem (c : cache_t) (k : string) (o : oid)
  : result unit * cache_t :=
  if read_only c then (Raise (Exn ReadOnlyModeError []), c)
  else (Ok tt, mkCache ((k, o) :: entries c) (registered c) (read_only c)).

Definition d_get_hub_object (c : cache_t) (os : list RunLength.t) (k : string)
  : result oid * (cache_t * list RunLength.t) :=
  match assoc k (registered c ++ entries c) with
  | Some o => (Ok o, (c, os))
  | None => (Raise (Exn KeyError [Lit k]), (c, os))
  end.

Definition d_register_hub_object (c : cache_t) (k : string) (o : oid)
  : result unit * cache_t :=
  (Ok tt, mkCache (entries c) ((k, o) :: registered c) (read_only c)).

(** Modelled from the spec: hub.util.keys and hub.util.link are not among
    the sources.  Spec section 6: a key is a function of the tensor, the
    commit and the kind of structure; section 4.4: a sample resolves to its
    path and credential key, [None] to no path and no key. *)
Definition d_get_creds_encoder_key (key commit_id : string) : string :=
  "versions/" ++ commit_id ++ "/" ++ key ++ "/creds_index".

Definition d_get_path_creds_key (sample : option LinkedSample)
  : option string * creds_key :=
  match sample with
  | None => (None, None)
  | Some ls => (Some (path ls), creds_key_of ls)
  end.

(** A tensor view: whether its tensor is a link tensor and the linked
    sample it stands for. *)
Record tensor_t := mkTensor { t_is_link : bool; t_sample : LinkedSample }.

(** Modelled from the spec: hub.core.tensor_link, hub.core.compression and
    hub.util.video are not among the sources.  A read yields a 2x2 array,
    except for the path "gone.png", which cannot be read; every video has 10
    frames of shape 4x4x3; an integer frame index [n] selects the range
    [n, n+1), no index selects all frames. *)
Definition d_read_linked_sample (p : string) (k : creds_key) (lc : link_creds_t)
    (verify : bool) : result (ndarray Z) :=
  if bool_decide (p = "gone.png")
  then Raise (Exn (OtherError "SampleReadError") [Lit p])
  else Ok (mkArray [2; 2] [1; 2; 3; 4]%Z).

Definition d_ndarray_getitem (a : ndarray Z) (ix : list index_value)
  : result (ndarray Z) :=
  match ix with
  | [] => Ok a
  | _ => Raise (Exn IndexError [Lit "too many indices for array"])
  end.

Definition d_read_video_shape (url : string) : result (list Z) :=
  Ok [10; 4; 4; 3]%Z.

Definition d_normalize_index (sub_index : option index_value) (nframes : Z)
  : result (Z * Z * Z * bool) :=
  match sub_index with
  | None => Ok (0, nframes, 1, false)%Z
  | Some (IInt n) => Ok (n, n + 1, 1, false)%Z
  | Some (ISlice a b c) =>
      Ok (default 0%Z a, default nframes b, default 1%Z c, false)
  end.

Definition d_decompress_video (url : string) (start stop step : Z) (reverse : bool)
  : result (ndarray Z) :=
  Ok (np_ones 1%Z [Z.to_nat ((stop - start) / step); 4; 4; 3]).

(** The stored paths of the example tensor, by global sample index. *)
Definition stored_paths : list string :=
  ["s3://bucket/a.mp4"; ""; "/data/b.mp4"; "gcs://bucket/c.png"].

Definition d_super_get_basic_sample (i : Z) (index : py_index) : result (list string) :=
  if decide (0 ≤ i)%Z then
    match stored_paths !! Z.to_nat i with
    | Some p => Ok [p]
    | None => Raise (Exn IndexError [Lit "sample index out of range"])
    end
  else Raise (Exn IndexError [Lit "sample index out of range"]).

Global Instance imports : Imports := {|
  LinkCreds := link_creds_t;
  Storage := creds_key * string;
  missing_keys := d_missing_keys;
  used_creds_keys := d_used_creds_keys;
  get_encoding := d_get_encoding;
  get_creds_key := d_get_creds_key;
  add_to_used_creds := d_add_to_used_creds;
  get_storage_provider := d_get_storage_provider;
  get_presigned_url := d_get_presigned_url;
  LRUCache := cache_t;
  cache_getitem := d_cache_getitem;
  cache_setitem := d_cache_setitem;
  get_hub_object := d_get_hub_object;
  register_hub_object := d_register_hub_object;
  get_creds_encoder_key := d_get_creds_encoder_key;
  get_path_creds_key := d_get_path_creds_key;
  util_save_link_creds := λ _, Ok tt;
  util_warn_missing_managed_creds := λ _, Ok tt;
  Tensor := tensor_t;
  is_link := t_is_link;
  _linked_sample := λ t, Ok (t_sample t);
  HubReadSample := ndarray Z;
  Elem := Z;
  one := 1%Z;
  read_linked_sample := d_read_linked_sample;
  sample_array := λ s, Ok s;
  ndarray_getitem := d_ndarray_getitem;
  _read_video_shape := d_read_video_shape;
  normalize_index := d_normalize_index;
  _decompress_video := d_decompress_video;
  super_get_basic_sample := d_super_get_basic_sample
|}.

(** A registry with two declared keys, of which only "aws" has a secret,
    and one sample stored with each. *)
Definition lc0 : link_creds_t :=
  mkLinkCreds ["aws"; "gcp"] ["aws"] [Some "aws"; Some "gcp"].

(** The same registry before anything was stored. *)
Definition lc_fresh : link_creds_t := mkLinkCreds ["aws"; "gcp"] ["aws"] [].

(** The same registry once "gcp" is populated too. *)
Definition lc_ready : link_creds_t :=
  mkLinkCreds ["aws"; "gcp"] ["aws"; "gcp"] [Some "aws"; Some "gcp"].

Definition engine_of (lc : link_creds_t) (c : cache_t) (commit : string)
    (cached : option oid) (cached_commit : option string)
    (os : list RunLength.t) : engine :=
  mkEngine "videos" commit c lc cached cached_commit true true os [].

(** The encoder of commit "c1": samples 0 and 3 use key id 1, samples 1 and
    2 no key. *)
Definition enc_c1 : RunLength.t := [(1%Z, 1); (0%Z, 2); (1%Z, 1)].

Definition cache_c1 : cache_t :=
  mkCache [("versions/c1/videos/creds_index", 0)]
          [("versions/c1/videos/creds_index", 0)] false.

(** An engine that already holds the encoder of its commit. *)
Definition warm : engine :=
  engine_of lc0 cache_c1 "c1" (Some 0) (Some "c1") [enc_c1].

(** An engine that has not yet touched its encoder. *)
Definition cold : engine := engine_of lc0 cache_c1 "c1" None None [enc_c1].

(** The engine after a checkout of the new commit "c2", still holding the
    encoder of "c1"; the cache is writable or read-only. *)
Definition stale : engine :=
  engine_of lc_fresh cache_c1 "c2" (Some 0) (Some "c1") [enc_c1].
Definition stale_read_only : engine :=
  engine_of lc_fresh (mkCache (entries cache_c1) (registered cache_c1) true)
    "c2" (Some 0) (Some "c1") [enc_c1].

(** The read-only cache once the encoder created for "c2" is registered:
    nothing was written, the new instance is the canonical one of its key. *)
Definition cache_c2_read_only : cache_t :=
  mkCache [("versions/c1/videos/creds_index", 0)]
          [("versions/c2/videos/creds_index", 1);
           ("versions/c1/videos/creds_index", 0)] true.

(** The samples of an append: one with the key "aws", one without a key. *)
Definition appended : list (option LinkedSample) :=
  [Some (mkLinkedSample "s3://b/x" (Some "aws")); None].

(** The engines reached from [stale] by one access to the encoder and by
    registering the credentials of [appended]. *)
Definition cache_c2 : cache_t :=
  mkCache [("versions/c2/videos/creds_index", 1);
           ("versions/c1/videos/creds_index", 0)]
          [("versions/c2/videos/creds_index", 1);
           ("versions/c1/videos/creds_index", 0)] false.
Definition stale_reloaded : engine :=
  engine_of lc_fresh cache_c2 "c2" (Some 1) (Some "c2") [enc_c1; RunLength.empty].
Definition lc_aws : link_creds_t := mkLinkCreds ["aws"; "gcp"] ["aws"] [Some "aws"].
Definition lc_aws_none : link_creds_t :=
  mkLinkCreds ["aws"; "gcp"] ["aws"] [None; Some "aws"].
Definition stale_registered : engine :=
  mkEngine "videos" "c2" cache_c2 lc_aws_none (Some 1) (Some "c2") true true
    [enc_c1; [(1%Z, 1); (0%Z, 1)]]
    [SaveLinkCreds lc_aws; WarnMissingManagedCreds lc_aws;
     SaveLinkCreds lc_aws_none; WarnMissingManagedCreds lc_aws_none].


(** A list an append may be called with: a view of a link tensor before and
    after an integer. *)
Definition mixed : list pyobj :=
  [PyNone; PyTensor (mkTensor true (mkLinkedSample "a.png" None));
   PyOther "int"; PyTensor (mkTensor true (mkLinkedSample "b.png" None))].

(** The index that selects frame 3 of a sample. *)
Definition frame_3 : py_index := PyIndex [IInt 0; IInt 3].

(** The frames [_decompress_video] decodes for the bounds [3, 4). *)
Definition one_frame : ndarray Z := np_ones 1%Z [1; 4; 4; 3].

End Demo.

(** The same for the chunk, the shape and the slot update. *)
Module DemoChunks.
Import Demo.

(** Modelled from the spec: HubReadSample, CredsEncoder.__setitem__ and
    BaseChunk are not among the sources.  Spec section 4.4: a single-slot
    update of the encoder overwrites the value of one existing index; a chunk
    holds the paths of its samples by local index; here every sample is in
    one chunk, so the local index is the global one. *)
Definition expand (enc : RunLength.t) : list Z :=
  flat_map (λ run : Z * nat, replicate run.2 run.1) enc.

Definition d_encoder_setitem (enc : RunLength.t) (i v : Z) : result RunLength.t :=
  if decide (0 ≤ i < Z.of_nat (length (expand enc)))%Z
  then Ok (register_all (<[Z.to_nat i := v]> (expand enc)) RunLength.empty)
  else Raise (Exn IndexError [Lit "sample index out of range"]).

Definition d_chunk_read_sample (chunk : list string) (local : Z)
    (cast copy decompress : bool) : result (list string) :=
  if decide (0 ≤ local)%Z then
    match chunk !! Z.to_nat local with
    | Some p => Ok [p]
    | None => Raise (Exn IndexError [Lit "sample index out of range"])
    end
  else Raise (Exn IndexError [Lit "sample index out of range"]).

Definition d_sample_shape (a : ndarray Z) : result (list nat) := Ok (shape a).

Global Instance chunk_imports : ChunkImports := {|
  sample_shape := d_sample_shape;
  encoder_setitem := d_encoder_setitem;
  BaseChunk := list string;
  chunk_read_sample := d_chunk_read_sample;
  translate_index_relative_to_chunks := λ i, Ok i
|}.

(** An engine that holds the encoder of its commit while no key is marked
    as used, and the engine after sample 1 was given the key "aws". *)
Definition unused : engine :=
  engine_of lc_fresh cache_c1 "c1" (Some 0) (Some "c1") [enc_c1].
Definition unused_updated : engine :=
  mkEngine "videos" "c1" cache_c1 lc_aws (Some 0) (Some "c1") true true
    [[(1%Z, 2); (0%Z, 1); (1%Z, 1)]]
    [SaveLinkCreds lc_aws; WarnMissingManagedCreds lc_aws].

(** A sample stored on S3 with the key "aws", one with a key that was never
    declared, and a view of a link tensor. *)
Definition aws_sample : LinkedSample := mkLinkedSample "s3://b/y" (Some "aws").
Definition undeclared_sample : LinkedSample := mkLinkedSample "s3://b/z" (Some "azure").
Definition view_a : tensor_t := mkTensor true (mkLinkedSample "a.png" None).

End DemoChunks.

(** ** Properties of the engine *)

Ltac unfold_st :=
  unfold mbind, mret, ST_bind, ST_ret, bind, ret, lift, gets, modify, raise,
    try_except in *.

Section Properties.
Context `{Imports}.
Local Open Scope list_scope.

Lemma engine_eta (st : engine) :
  mkEngine (key st) (commit_id st) (meta_cache st) (link_creds st) (_creds_encoder st)
    (_creds_encoder_commit_id st) (tensor_meta_is_link st) (tensor_meta_verify st)
    (objects st) (log st) = st.
Proof. by destruct st. Qed.

(** The set comprehension of [check_link_ready] is the intersection of the
    missing keys with the used keys. *)
Lemma missing_used_keys_intersection (missing : list creds_key) (creds_used : gset creds_key) :
  list_to_set (filter (λ k, k ∈ creds_used) missing)
  = (list_to_set missing : gset creds_key) ∩ creds_used.
Proof.
  apply set_eq. intros k.
  rewrite elem_of_intersection, !elem_of_list_to_set, list_elem_of_filter.
  tauto.
Qed.

Lemma creds_not_populated_names (keys named : gset creds_key) :
  KeySetRepr named ∈ exn_msg (creds_not_populated keys) ↔ named = keys.
Proof.
  unfold creds_not_populated. simpl. rewrite !elem_of_cons, elem_of_nil.
  split.
  - intros [Hk|[Hk|[Hk|[]]]]; congruence.
  - intros ->. auto.
Qed.

(** C1. [check_link_ready] raises if and only if some credential key is
    both missing (no loaded secret) and used by stored samples; the error is
    the [ValueError] whose message names exactly the set of those keys; when
    there is no such key it returns [None]; in both cases the engine is left
    as it was. *)
Theorem check_link_ready_iff_missing_used (st : engine) :
  let missing_used : gset creds_key :=
    list_to_set (missing_keys (link_creds st)) ∩ used_creds_keys (link_creds st) in
  ((∃ e, (check_link_ready st).1 = Raise e) ↔ missing_used ≠ ∅)
  ∧ (∀ e, (check_link_ready st).1 = Raise e →
          exn_cls e = ValueError
          ∧ ∀ named, KeySetRepr named ∈ exn_msg e ↔ named = missing_used)
  ∧ ((check_link_ready st).1 = Ok tt ↔ missing_used = ∅)
  ∧ (check_link_ready st).2 = st.
Proof.
  intros missing_used. unfold check_link_ready. unfold_st.
  rewrite missing_used_keys_intersection. fold missing_used.
  case_bool_decide as Hne; simpl.
  - split_and!.
    + split; [done | intros _; by eexists].
    + intros e [= <-]. split; [done |].
      intros named. apply creds_not_populated_names.
    + split; [discriminate | done].
    + done.
  - assert (missing_used = ∅) as Hempty.
    { destruct (decide (missing_used = ∅)); [done | by destruct Hne]. }
    split_and!.
    + split; [intros [e He]; discriminate | done].
    + intros e He. discriminate.
    + done.
    + done.
Qed.

(** *** The commit-scoped encoder *)

Lemma creds_encoder_hit (st : engine) :
  holds_current_encoder st → creds_encoder st = (Ok (_creds_encoder st), st).
Proof.
  intros [Hsome Hcommit]. unfold creds_encoder. unfold_st. simpl.
  rewrite (bool_decide_eq_false_2 (_creds_encoder st = None)) by done.
  rewrite (bool_decide_eq_false_2 (_creds_encoder_commit_id st ≠ _)) by (by intros []).
  done.
Qed.

Lemma creds_encoder_exists_miss (st : engine) :
  ¬ holds_current_encoder st →
  creds_encoder_exists st =
    match cache_getitem (meta_cache st) (current_key st) with
    | (Ok _, mc) => (Ok true, set_meta_cache mc st)
    | (Raise e, mc) =>
        if bool_decide (exn_cls e = KeyError)
        then (Ok false, set_meta_cache mc st)
        else (Raise e, set_meta_cache mc st)
    end.
Proof.
  intros Hmiss. unfold creds_encoder_exists, meta_cache_getitem, current_key.
  unfold_st. simpl.
  assert (bool_decide (_creds_encoder st ≠ None)
          && bool_decide (_creds_encoder_commit_id st = Some (commit_id st)) = false) as ->.
  { apply andb_false_iff. unfold holds_current_encoder in Hmiss.
    destruct (decide (_creds_encoder st ≠ None)) as [Hs|Hs].
    - right. apply bool_decide_eq_false_2. tauto.
    - left. by apply bool_decide_eq_false_2. }
  destruct (cache_getitem (meta_cache st) _) as [[[]|e] mc]; simpl; done.
Qed.

Lemma miss_guard (st : engine) :
  ¬ holds_current_encoder st →
  bool_decide (_creds_encoder st = None)
  || bool_decide (_creds_encoder_commit_id st ≠ Some (commit_id st)) = true.
Proof.
  intros Hmiss. unfold holds_current_encoder in Hmiss.
  apply orb_true_iff.
  destruct (decide (_creds_encoder st = None)) as [Hn|Hn].
  - left. by apply bool_decide_eq_true_2.
  - right. apply bool_decide_eq_true_2. tauto.
Qed.

(** What the property does when it cannot reuse its encoder, as one case
    analysis on the calls into the cache. *)
Lemma creds_encoder_miss (st : engine) :
  ¬ holds_current_encoder st →
  creds_encoder st =
    let k := current_key st in
    let finish (enc : oid) (st1 : engine) : result (option oid) * engine :=
      let st2 := set__creds_encoder_commit_id (Some (commit_id st))
                   (set__creds_encoder (Some enc) st1) in
      match register_hub_object (meta_cache st2) k enc with
      | (Ok _, mc) => (Ok (Some enc), set_meta_cache mc st2)
      | (Raise e, mc) => (Raise e, set_meta_cache mc st2)
      end in
    match cache_getitem (meta_cache st) k with
    | (Ok _, mc1) =>
        match get_hub_object mc1 (objects st) k with
        | (Ok enc, (mc2, os)) => finish enc (set_objects os (set_meta_cache mc2 st))
        | (Raise e, (mc2, os)) => (Raise e, set_objects os (set_meta_cache mc2 st))
        end
    | (Raise e, mc1) =>
        if bool_decide (exn_cls e = KeyError) then
          let enc := length (objects st) in
          let st1 := set_objects (objects st ++ [RunLength.empty]) (set_meta_cache mc1 st) in
          match cache_setitem mc1 k enc with
          | (Ok _, mc2) => finish enc (set_meta_cache mc2 st1)
          | (Raise e', mc2) =>
              if bool_decide (exn_cls e' = ReadOnlyModeError)
              then finish enc (set_meta_cache mc2 st1)
              else (Raise e', set_meta_cache mc2 st1)
          end
        else (Raise e, set_meta_cache mc1 st)
    end.
Proof.
  intros Hmiss. unfold creds_encoder. unfold mbind at 1 2 3. unfold ST_bind, bind at 1 2 3.
  simpl. rewrite (miss_guard st Hmiss).
  unfold mbind at 1. unfold ST_bind, bind at 1.
  unfold mbind at 1. unfold ST_bind, bind at 1.
  unfold mbind at 1. unfold ST_bind, bind at 1. simpl.
  unfold mbind at 1. unfold ST_bind, bind at 1. simpl.
  rewrite (creds_encoder_exists_miss st Hmiss). fold (current_key st).
  destruct (cache_getitem (meta_cache st) (current_key st)) as [[[]|e] mc1]; simpl.
  - unfold meta_cache_get_hub_object, meta_cache_register_hub_object. unfold_st. simpl.
    destruct (get_hub_object mc1 (objects st) (current_key st)) as [[enc|e] [mc2 os]]; simpl; [|done].
    destruct (register_hub_object mc2 (current_key st) enc) as [[[]|e] mc3]; simpl; done.
  - case_bool_decide as Hk; simpl; [|done].
    unfold new_CredsEncoder, meta_cache_setitem, meta_cache_register_hub_object.
    unfold_st. simpl.
    destruct (cache_setitem mc1 (current_key st) (length (objects st))) as [[[]|e'] mc2]; simpl.
    + destruct (register_hub_object mc2 _ _) as [[[]|e''] mc3]; simpl; done.
    + case_bool_decide as Hro; simpl; [|done].
      destruct (register_hub_object mc2 _ _) as [[[]|e''] mc3]; simpl; done.
Qed.

(** What an access that cannot reuse its encoder does to the two fields
    that record the held encoder, whatever its outcome. *)
Lemma creds_encoder_held_fields (st : engine) r st' :
  ¬ holds_current_encoder st →
  creds_encoder st = (r, st') →
  commit_id st' = commit_id st
  ∧ ((_creds_encoder st' = _creds_encoder st
      ∧ _creds_encoder_commit_id st' = _creds_encoder_commit_id st
      ∧ ∃ e, r = Raise e)
     ∨ (∃ enc, _creds_encoder st' = Some enc
          ∧ _creds_encoder_commit_id st' = Some (commit_id st)
          ∧ obtained_for_current_commit st enc)).
Proof.
  intros Hmiss. rewrite (creds_encoder_miss st Hmiss). cbv zeta.
  destruct (cache_getitem (meta_cache st) (current_key st)) as [[[]|e] mc1] eqn:Hget.
  - destruct (get_hub_object mc1 (objects st) (current_key st)) as [[enc|e] [mc2 os]]
      eqn:Hload.
    + assert (obtained_for_current_commit st enc) as Hfor.
      { right. exists mc1, mc2, os. by split. }
      simpl. destruct (register_hub_object mc2 _ enc) as [[[]|e] mc3];
        intros [= <- <-]; simpl; (split; [done|]); right; by exists enc.
    + intros [= <- <-]. simpl. split; [done|]. left. split_and!; [done | done |].
      by exists e.
  - case_bool_decide as Hk.
    + assert (obtained_for_current_commit st (length (objects st))) as Hfor.
      { left. split; [done|]. by exists e, mc1. }
      destruct (cache_setitem mc1 _ _) as [[[]|e'] mc2].
      * simpl. destruct (register_hub_object mc2 _ _) as [[[]|e''] mc3];
          intros [= <- <-]; simpl; (split; [done|]); right; by eexists.
      * case_bool_decide as Hro.
        -- simpl. destruct (register_hub_object mc2 _ _) as [[[]|e''] mc3];
             intros [= <- <-]; simpl; (split; [done|]); right; by eexists.
        -- intros [= <- <-]. simpl. split; [done|]. left. split_and!; [done | done |].
           by exists e'.
    + intros [= <- <-]. simpl. split; [done|]. left. split_and!; [done | done |].
      by exists e.
Qed.

(** C7. The encoder the engine holds is scoped to one commit.  Every access
    compares the recorded commit id with the current one.  Only when they
    agree is the held encoder returned, with no other effect.  Otherwise the
    held encoder and its commit id play no part in the outcome: the encoder
    returned is a newly created object, or the object the cache loads under
    the key of the current commit.  After every successful access the engine
    holds the returned encoder recorded for the current commit, so after a
    checkout of any other commit the next access cannot reuse it.  The same
    holds when an access raises: whatever the outcome, the two fields that
    record the held encoder are either left as they were (a reuse, or a raise
    before anything was recorded, after which the next access cannot reuse
    either), or they record, for the current commit, the encoder this access
    created or loaded under the key of the current commit.  So an encoder is
    never recorded for a commit it was not obtained for. *)
Theorem creds_encoder_scoped_to_commit (st : engine) :
  (holds_current_encoder st → creds_encoder st = (Ok (_creds_encoder st), st))
  ∧ (¬ holds_current_encoder st →
       let forgotten := set__creds_encoder_commit_id None (set__creds_encoder None st) in
       (creds_encoder st).1 = (creds_encoder forgotten).1
       ∧ (is_ok (creds_encoder st).1 = true →
            (creds_encoder st).2 = (creds_encoder forgotten).2)
       ∧ ∀ r st', creds_encoder st = (Ok r, st') →
           (r = Some (length (objects st))
            ∧ objects st' = objects st ++ [RunLength.empty]
            ∧ ∃ e mc, cache_getitem (meta_cache st) (current_key st) = (Raise e, mc)
                      ∧ exn_cls e = KeyError)
           ∨ (∃ mc1 enc mc2, cache_getitem (meta_cache st) (current_key st) = (Ok tt, mc1)
                ∧ get_hub_object mc1 (objects st) (current_key st)
                  = (Ok enc, (mc2, objects st'))
                ∧ r = Some enc))
  ∧ (∀ r st', creds_encoder st = (Ok r, st') →
       (∃ enc, r = Some enc ∧ _creds_encoder st' = Some enc)
       ∧ _creds_encoder_commit_id st' = Some (commit_id st)
       ∧ commit_id st' = commit_id st
       ∧ holds_current_encoder st'
       ∧ ∀ c, c ≠ commit_id st → ¬ holds_current_encoder (checkout c st'))
  ∧ (∀ r st', creds_encoder st = (r, st') →
       commit_id st' = commit_id st
       ∧ ((_creds_encoder st' = _creds_encoder st
           ∧ _creds_encoder_commit_id st' = _creds_encoder_commit_id st
           ∧ (holds_current_encoder st ∨ ∃ e, r = Raise e))
          ∨ (¬ holds_current_encoder st
             ∧ ∃ enc, _creds_encoder st' = Some enc
                 ∧ _creds_encoder_commit_id st' = Some (commit_id st)
                 ∧ obtained_for_current_commit st enc))
       ∧ (¬ holds_current_encoder st → holds_current_encoder st' →
            ∃ enc, _creds_encoder st' = Some enc
                   ∧ obtained_for_current_commit st enc)
       ∧ (¬ holds_current_encoder st → (∃ e, r = Raise e) →
            ¬ holds_current_encoder st'
            ∨ ∃ enc, _creds_encoder st' = Some enc
                     ∧ obtained_for_current_commit st enc)).
Proof.
  split_and!.
  - apply creds_encoder_hit.
  - intros Hmiss forgotten.
    assert (¬ holds_current_encoder forgotten) as Hmiss0.
    { intros [Hs _]. by apply Hs. }
    rewrite (creds_encoder_miss st Hmiss), (creds_encoder_miss forgotten Hmiss0).
    unfold forgotten, current_key. simpl.
    destruct (cache_getitem (meta_cache st) _) as [[[]|e] mc1] eqn:Hget; simpl.
    + destruct (get_hub_object mc1 (objects st) _) as [[enc|e] [mc2 os]] eqn:Hload; simpl.
      * destruct (register_hub_object mc2 _ enc) as [[[]|e] mc3]; simpl.
        -- split_and!; [done | done |]. intros r st' [= <- <-]. right.
           exists mc1, enc, mc2. simpl. done.
        -- split_and!; [done | done |]. intros r st' [=].
      * split_and!; [done | done |]. intros r st' [=].
    + case_bool_decide as Hk; simpl.
      * destruct (cache_setitem mc1 _ _) as [[[]|e'] mc2]; simpl.
        -- destruct (register_hub_object mc2 _ _) as [[[]|e''] mc3]; simpl.
           ++ split_and!; [done | done |]. intros r st' [= <- <-]. left.
              simpl. split_and!; [done | done |]. by exists e, mc1.
           ++ split_and!; [done | done |]. intros r st' [=].
        -- case_bool_decide as Hro; simpl.
           ++ destruct (register_hub_object mc2 _ _) as [[[]|e''] mc3]; simpl.
              ** split_and!; [done | done |]. intros r st' [= <- <-]. left.
                 simpl. split_and!; [done | done |]. by exists e, mc1.
              ** split_and!; [done | done |]. intros r st' [=].
           ++ split_and!; [done | done |]. intros r st' [=].
      * split_and!; [done | done |]. intros r st' [=].
  - intros r st'.
    assert (∀ st1 : engine, _creds_encoder_commit_id st1 = Some (commit_id st) →
              commit_id st1 = commit_id st → _creds_encoder st1 ≠ None →
              ∀ c, c ≠ commit_id st → ¬ holds_current_encoder (checkout c st1)) as Hco.
    { intros st1 Hrec Hc Hs c Hne [_ Hh]. simpl in Hh. congruence. }
    destruct (decide (holds_current_encoder st)) as [Hhit|Hmiss].
    + rewrite (creds_encoder_hit st Hhit). intros [= <- <-].
      destruct Hhit as [Hs Hc].
      split_and!; try done.
      * destruct (_creds_encoder st) as [enc|]; [by exists enc | done].
      * by apply Hco.
    + rewrite (creds_encoder_miss st Hmiss). simpl.
      destruct (cache_getitem (meta_cache st) _) as [[[]|e] mc1]; simpl.
      * destruct (get_hub_object mc1 (objects st) _) as [[enc|e] [mc2 os]]; simpl; [|done].
        destruct (register_hub_object mc2 _ enc) as [[[]|e] mc3]; simpl; [|done].
        intros [= <- <-]. simpl.
        split_and!; simpl; first [done | by eexists | by apply Hco | by split].
      * case_bool_decide as Hk; simpl; [|done].
        destruct (cache_setitem mc1 _ _) as [[[]|e'] mc2]; simpl.
        -- destruct (register_hub_object mc2 _ _) as [[[]|e''] mc3]; simpl; [|done].
           intros [= <- <-]. simpl.
           split_and!; simpl; first [done | by eexists | by apply Hco | by split].
        -- case_bool_decide as Hro; simpl; [|done].
           destruct (register_hub_object mc2 _ _) as [[[]|e''] mc3]; simpl; [|done].
           intros [= <- <-]. simpl.
           split_and!; simpl; first [done | by eexists | by apply Hco | by split].
  - intros r st' Hrun.
    destruct (decide (holds_current_encoder st)) as [Hhit|Hmiss].
    + rewrite (creds_encoder_hit st Hhit) in Hrun. injection Hrun as <- <-.
      split_and!; [done | | done | done].
      left. split_and!; [done | done | by left].
    + destruct (creds_encoder_held_fields st r st' Hmiss Hrun)
        as [Hc [(Hsame & Hrec & Hraise)|(enc & Hheld & Hrec & Hfor)]].
      * assert (¬ holds_current_encoder st') as Hmiss'.
        { intros [Hs Hh]. apply Hmiss. split; congruence. }
        split_and!; [done | | done | by left].
        left. split_and!; [done | done | by right].
      * split_and!; [done | | |].
        -- right. split; [done|]. by exists enc.
        -- intros _ _. by exists enc.
        -- intros _ _. right. by exists enc.
Qed.

(** C8. When the property has to create an empty encoder (the cache has
    no entry under the key of the current commit) and the write
    [self.meta_cache[key] = enc] raises [ReadOnlyModeError], the error is
    swallowed: the new in-memory encoder is recorded in the engine and
    returned.  Every other error propagates to the caller: any other error of
    that write, an error of the existence probe other than [KeyError], an
    error while loading an existing encoder, and an error of the final
    registration, on each of the three ways that lead to it (the write
    succeeded, the write was refused as read-only, an existing encoder was
    loaded).  These are all the errors an access can raise. *)
Theorem creds_encoder_swallows_read_only_only (st : engine) :
  ¬ holds_current_encoder st →
  let k := current_key st in
  let enc := length (objects st) in
  (∀ e0 mc1 e1 mc2,
     cache_getitem (meta_cache st) k = (Raise e0, mc1) → exn_cls e0 = KeyError →
     cache_setitem mc1 k enc = (Raise e1, mc2) →
     (exn_cls e1 = ReadOnlyModeError →
        (∀ mc3, register_hub_object mc2 k enc = (Ok tt, mc3) →
           ∃ st', creds_encoder st = (Ok (Some enc), st')
                  ∧ _creds_encoder st' = Some enc
                  ∧ _creds_encoder_commit_id st' = Some (commit_id st)
                  ∧ objects st' !! enc = Some RunLength.empty
                  ∧ meta_cache st' = mc3)
        ∧ (∀ e2 mc3, register_hub_object mc2 k enc = (Raise e2, mc3) →
             (creds_encoder st).1 = Raise e2))
     ∧ (exn_cls e1 ≠ ReadOnlyModeError → (creds_encoder st).1 = Raise e1))
  ∧ (∀ e0 mc1, cache_getitem (meta_cache st) k = (Raise e0, mc1) →
       exn_cls e0 ≠ KeyError → (creds_encoder st).1 = Raise e0)
  ∧ (∀ mc1 e mc2 os,
       cache_getitem (meta_cache st) k = (Ok tt, mc1) →
       get_hub_object mc1 (objects st) k = (Raise e, (mc2, os)) →
       (creds_encoder st).1 = Raise e)
  ∧ (∀ mc1 loaded mc2 os e mc3,
       cache_getitem (meta_cache st) k = (Ok tt, mc1) →
       get_hub_object mc1 (objects st) k = (Ok loaded, (mc2, os)) →
       register_hub_object mc2 k loaded = (Raise e, mc3) →
       (creds_encoder st).1 = Raise e)
  ∧ (∀ e0 mc1 mc2,
       cache_getitem (meta_cache st) k = (Raise e0, mc1) → exn_cls e0 = KeyError →
       cache_setitem mc1 k enc = (Ok tt, mc2) →
       (∀ mc3, register_hub_object mc2 k enc = (Ok tt, mc3) →
          ∃ st', creds_encoder st = (Ok (Some enc), st')
                 ∧ _creds_encoder st' = Some enc
                 ∧ _creds_encoder_commit_id st' = Some (commit_id st)
                 ∧ objects st' !! enc = Some RunLength.empty
                 ∧ meta_cache st' = mc3)
       ∧ (∀ e2 mc3, register_hub_object mc2 k enc = (Raise e2, mc3) →
            (creds_encoder st).1 = Raise e2))
  ∧ (∀ e, (creds_encoder st).1 = Raise e →
       (∃ mc1, cache_getitem (meta_cache st) k = (Raise e, mc1) ∧ exn_cls e ≠ KeyError)
       ∨ (∃ e0 mc1 mc2, cache_getitem (meta_cache st) k = (Raise e0, mc1)
            ∧ exn_cls e0 = KeyError
            ∧ cache_setitem mc1 k enc = (Raise e, mc2)
            ∧ exn_cls e ≠ ReadOnlyModeError)
       ∨ (∃ mc1 mc2 os, cache_getitem (meta_cache st) k = (Ok tt, mc1)
            ∧ get_hub_object mc1 (objects st) k = (Raise e, (mc2, os)))
       ∨ (∃ mc1 loaded mc2 os mc3, cache_getitem (meta_cache st) k = (Ok tt, mc1)
            ∧ get_hub_object mc1 (objects st) k = (Ok loaded, (mc2, os))
            ∧ register_hub_object mc2 k loaded = (Raise e, mc3))
       ∨ (∃ e0 mc1 written mc2 mc3, cache_getitem (meta_cache st) k = (Raise e0, mc1)
            ∧ exn_cls e0 = KeyError
            ∧ cache_setitem mc1 k enc = (written, mc2)
            ∧ (written = Ok tt
               ∨ ∃ e1, written = Raise e1 ∧ exn_cls e1 = ReadOnlyModeError)
            ∧ register_hub_object mc2 k enc = (Raise e, mc3))).
Proof.
  intros Hmiss k enc. rewrite (creds_encoder_miss st Hmiss). fold k. fold enc.
  cbv zeta. split_and!.
  - intros e0 mc1 e1 mc2 Hget Hk Hset. rewrite Hget.
    rewrite (bool_decide_eq_true_2 _ Hk). fold k enc. rewrite Hset. split.
    + intros Hro. rewrite (bool_decide_eq_true_2 _ Hro). simpl. split.
      * intros mc3 Hreg. rewrite Hreg. eexists. split; [reflexivity|]. simpl.
        split_and!; try done.
        unfold enc. rewrite lookup_app_r by lia.
        by rewrite Nat.sub_diag.
      * intros e2 mc3 Hreg. by rewrite Hreg.
    + intros Hro. by rewrite (bool_decide_eq_false_2 _ Hro).
  - intros e0 mc1 Hget Hk. rewrite Hget. by rewrite (bool_decide_eq_false_2 _ Hk).
  - intros mc1 e mc2 os Hget Hload. by rewrite Hget, Hload.
  - intros mc1 loaded mc2 os e mc3 Hget Hload Hreg. rewrite Hget, Hload. simpl.
    by rewrite Hreg.
  - intros e0 mc1 mc2 Hget Hk Hset. rewrite Hget.
    rewrite (bool_decide_eq_true_2 _ Hk). fold k enc. rewrite Hset. simpl. split.
    + intros mc3 Hreg. rewrite Hreg. eexists. split; [reflexivity|]. simpl.
      split_and!; try done.
      unfold enc. rewrite lookup_app_r by lia.
      by rewrite Nat.sub_diag.
    + intros e2 mc3 Hreg. by rewrite Hreg.
  - intros e.
    destruct (cache_getitem (meta_cache st) k) as [[[]|e0] mc1] eqn:Hget.
    + destruct (get_hub_object mc1 (objects st) k) as [[o|e1] [mc2 os]] eqn:Hload.
      * simpl. destruct (register_hub_object mc2 k o) as [[[]|e2] mc3] eqn:Hreg;
          simpl; [intros [=]|].
        intros [= <-]. do 3 right. left. by exists mc1, o, mc2, os, mc3.
      * simpl. intros [= <-]. right. right. left. by exists mc1, mc2, os.
    + case_bool_decide as Hk.
      * destruct (cache_setitem mc1 k enc) as [[[]|e1] mc2] eqn:Hset.
        -- simpl. destruct (register_hub_object mc2 k enc) as [[[]|e2] mc3] eqn:Hreg;
             simpl; [intros [=]|].
           intros [= <-]. do 4 right. exists e0, mc1, (Ok tt), mc2, mc3.
           split_and!; [done | done | done | by left | done].
        -- case_bool_decide as Hro.
           ++ simpl. destruct (register_hub_object mc2 k enc) as [[[]|e2] mc3] eqn:Hreg;
                simpl; [intros [=]|].
              intros [= <-]. do 4 right. exists e0, mc1, (Raise e1), mc2, mc3.
              split_and!; [done | done | done | right; by exists e1 | done].
           ++ simpl. intros [= <-]. right. left. by exists e0, mc1, mc2.
      * simpl. intros [= <-]. left. by exists mc1.
Qed.

(** *** Reading a sample *)

Lemma get_path_pure (i : Z) (st : engine) : (get_path i st).2 = st.
Proof.
  unfold get_path. unfold_st.
  destruct (super_get_basic_sample i _) as [[|p l]|e]; done.
Qed.

Lemma encoder_get_encoded_creds_key_pure (enc : option oid) (i : Z) (st : engine) :
  (encoder_get_encoded_creds_key enc i st).2 = st.
Proof.
  unfold encoder_get_encoded_creds_key. destruct enc as [o|]; [|done].
  unfold_st. destruct (objects st !! o) as [e|]; done.
Qed.

Lemma run_pure {A} (m : ST engine A) (st : engine) (a : A) :
  (m st).1 = Ok a → (m st).2 = st → m st = (Ok a, st).
Proof. destruct (m st). simpl. by intros -> ->. Qed.

Lemma startswith_app (s p : string) :
  startswith s p = true ↔ ∃ rest, s = (p ++ rest)%string.
Proof.
  unfold startswith. revert s.
  induction p as [|c p IH]; intros [|c' s]; simpl.
  - split; [intros _; by exists "" | done].
  - split; [intros _; by eexists | done].
  - split; [done | intros [rest Hr]].
    change ("" = String c (p ++ rest)%string) in Hr. discriminate.
  - destruct (Ascii.ascii_dec c c') as [->|Hne].
    + rewrite IH. split; intros [rest Hr]; exists rest.
      * by rewrite Hr.
      * change (String c' s = String c' (p ++ rest)%string) in Hr. congruence.
    + split; [done | intros [rest Hr]].
      change (String c' s = String c (p ++ rest)%string) in Hr. congruence.
Qed.

Lemma is_object_storage_path_schemes (p : string) :
  is_object_storage_path p = true
  ↔ ∃ scheme rest, scheme ∈ ["gcs://"; "gcp://"; "s3://"] ∧ p = (scheme ++ rest)%string.
Proof.
  unfold is_object_storage_path. rewrite !orb_true_iff, !startswith_app. split.
  - intros [[[rest ->]|[rest ->]]|[rest ->]]; eexists _, rest; (split; [|done]);
      set_solver.
  - intros (scheme & rest & Hin & ->).
    rewrite !elem_of_cons, elem_of_nil in Hin.
    destruct Hin as [->|[->|[->|[]]]]; eauto.
Qed.

(** C5. For a sample whose stored path and credential key resolve, the path
    is dispatched on its scheme: if it begins with one of the object-storage
    prefixes "gcs://", "gcp://", "s3://", the result is what
    [get_presigned_url(path, full=True)] returns on the storage client that
    the registry resolves for the sample's credential key (for provider "s3"
    when the prefix is "s3://", else "gcs"); for every other path the result
    is the stored path itself. *)
Theorem get_video_url_dispatch (st st1 : engine) (i : Z) (enc : option oid)
    (p : string) (code : Z) (k : creds_key) :
  creds_encoder st = (Ok enc, st1) →
  (get_path i st1).1 = Ok p →
  (encoder_get_encoded_creds_key enc i st1).1 = Ok code →
  get_creds_key (link_creds st1) code = Ok k →
  (is_object_storage_path p = true
   ↔ ∃ scheme rest, scheme ∈ ["gcs://"; "gcp://"; "s3://"] ∧ p = (scheme ++ rest)%string)
  ∧ (is_object_storage_path p = true →
       let provider_type := if startswith p "s3://" then "s3" else "gcs" in
       ∀ r lc, get_storage_provider (link_creds st1) k provider_type = (r, lc) →
         get_video_url i st =
           (match r with
            | Ok storage => get_presigned_url storage p true
            | Raise e => Raise e
            end, set_link_creds lc st1))
  ∧ (is_object_storage_path p = false → get_video_url i st = (Ok p, st1)).
Proof.
  intros Henc Hpath Hcode Hkey.
  pose proof (run_pure _ _ _ Hpath (get_path_pure i st1)) as Hpath'.
  pose proof (run_pure _ _ _ Hcode (encoder_get_encoded_creds_key_pure enc i st1)) as Hcode'.
  split; [apply is_object_storage_path_schemes|].
  assert (get_video_url i st =
            (if is_object_storage_path p then
               storage ← link_creds_get_storage_provider k
                           (if startswith p "s3://" then "s3" else "gcs");
               url ← lift (get_presigned_url storage p true);
               mret url
             else mret p) st1) as ->.
  { unfold get_video_url. unfold mbind at 1. unfold ST_bind, bind at 1. rewrite Henc.
    unfold mbind at 1. unfold ST_bind, bind at 1. rewrite Hpath'.
    unfold mbind at 1. unfold ST_bind, bind at 1. rewrite Hcode'.
    unfold mbind at 1 2. unfold ST_bind, bind at 1 2. unfold gets at 1, lift at 1.
    rewrite Hkey. done. }
  split.
  - intros -> provider_type r lc Hprov. unfold link_creds_get_storage_provider.
    unfold_st. fold provider_type. rewrite Hprov.
    destruct r as [storage|e]; [|done].
    by destruct (get_presigned_url storage p true).
  - intros ->. done.
Qed.

(** C6. For a sample whose stored path resolves: when the path is empty
    the result is [np.ones((0,))], a one-dimensional array of length zero,
    whatever the index, and nothing is raised; when the path is not empty
    the linked resource is read (without verification) with the sample's
    credential key, its array is taken, and the array is indexed by the
    entries of the index after the first. *)
Theorem get_basic_sample_empty_or_resolved (st st1 : engine) (i : Z)
    (enc : option oid) (p : string) (index : py_index) (fetch_chunks : bool) :
  creds_encoder st = (Ok enc, st1) →
  (get_path i st1).1 = Ok p →
  (p = "" →
     ∃ a, get_basic_sample i index fetch_chunks st = (Ok a, st1)
          ∧ a = np_ones one [0] ∧ shape a = [0] ∧ ndim a = 1 ∧ data a = [])
  ∧ (p ≠ "" →
       ∀ code k s arr values,
         (encoder_get_encoded_creds_key enc i st1).1 = Ok code →
         get_creds_key (link_creds st1) code = Ok k →
         read_linked_sample p k (link_creds st1) false = Ok s →
         sample_array s = Ok arr →
         index = PyIndex values →
         get_basic_sample i index fetch_chunks st
         = (ndarray_getitem arr (drop 1 values), st1)).
Proof.
  intros Henc Hpath.
  pose proof (run_pure _ _ _ Hpath (get_path_pure i st1)) as Hpath'.
  assert (get_hub_read_sample i st =
            (if bool_decide (p = "") then mret None
             else
               sample_creds_encoded ← encoder_get_encoded_creds_key enc i;
               lc ← gets link_creds;
               sample_creds_key ← lift (get_creds_key lc sample_creds_encoded);
               r ← lift (read_linked_sample p sample_creds_key lc false);
               mret (Some r)) st1) as Hread.
  { unfold get_hub_read_sample. unfold mbind at 1. unfold ST_bind, bind at 1.
    rewrite Henc. unfold mbind at 1. unfold ST_bind, bind at 1. by rewrite Hpath'. }
  split.
  - intros Hp. exists (np_ones one [0]).
    unfold get_basic_sample. unfold mbind at 1. unfold ST_bind, bind at 1.
    rewrite Hread. rewrite (bool_decide_eq_true_2 _ Hp). done.
  - intros Hp code k s arr values Hcode Hkey Hrd Harr ->.
    pose proof (run_pure _ _ _ Hcode (encoder_get_encoded_creds_key_pure enc i st1)) as Hcode'.
    unfold get_basic_sample. unfold mbind at 1. unfold ST_bind, bind at 1.
    rewrite Hread. rewrite (bool_decide_eq_false_2 _ Hp).
    unfold mbind at 1. unfold ST_bind, bind at 1. rewrite Hcode'.
    unfold_st. rewrite Hkey, Hrd, Harr. simpl. done.
Qed.

(** C2. Whenever [get_video_sample] returns an array, the [index] is an
    [Index] object and the array is exactly what [_decompress_video]
    decoded for the normalized bounds of its second entry: the frame axis is
    never collapsed, also when that entry is a single integer.  The flag
    [squeeze] tests the whole [index] for being an [int], which an [Index]
    never is, and the array [squeeze(0)] returns is dropped. *)
Theorem get_video_sample_returns_decoded_frames (i : Z) (index : py_index)
    (st st' : engine) (v : ndarray Elem) :
  get_video_sample i index st = (Ok v, st') →
  ∃ values url nframes shape_rest start stop step reverse,
    index = PyIndex values
    ∧ get_video_url i st = (Ok url, st')
    ∧ _read_video_shape url = Ok (nframes :: shape_rest)
    ∧ normalize_index (if decide (1 < length values) then values !! 1 else None) nframes
      = Ok (start, stop, step, reverse)
    ∧ _decompress_video url start stop step reverse = Ok v.
Proof.
  unfold get_video_sample. unfold mbind at 1. unfold ST_bind, bind at 1.
  destruct (get_video_url i st) as [[url|e] st1]; [|intros [=]].
  unfold_st.
  destruct (_read_video_shape url) as [sh|e] eqn:Hshape; [|intros [=]].
  destruct index as [n|values]; simpl; [intros [=]|].
  destruct sh as [|nframes shape_rest]; [intros [=]|].
  destruct (normalize_index _ nframes) as [[[[start stop] step] reverse]|e] eqn:Hnorm;
    simpl; [|intros [=]].
  destruct (_decompress_video url start stop step reverse) as [a|e] eqn:Hdec;
    simpl; intros [= <- <-].
  exists values, url, nframes, shape_rest, start, stop, step, reverse. done.
Qed.

(** *** Checking the samples of an append *)

Lemma resolves_accepted o s o' : resolves o s o' → accepted_variant o = true.
Proof. by destruct 1. Qed.

Lemma resolve_sample_middle (done rest : list pyobj) (o : pyobj) :
  resolve_sample (length done) o (done ++ o :: rest) =
    match o with
    | PyTensor t =>
        if is_link t then
          match _linked_sample t with
          | Ok ls => (Ok (Some ls), done ++ PyLinkedSample ls :: rest)
          | Raise e => (Raise e, done ++ o :: rest)
          end
        else (Raise (expected_linked_sample o), done ++ o :: rest)
    | PyLinkedSample ls => (Ok (Some ls), done ++ o :: rest)
    | PyNone => (Ok None, done ++ o :: rest)
    | PyOther _ => (Raise (expected_linked_sample o), done ++ o :: rest)
    end.
Proof.
  destruct o as [|ls|t|cls]; simpl; try done.
  destruct (is_link t); [|done]. unfold_st.
  destruct (_linked_sample t) as [ls|e]; [|done]. simpl.
  replace (length done) with (length done + 0) at 1 by lia.
  by rewrite insert_app_r.
Qed.

Lemma check_each_sample_from_cons (self : engine) (n : nat)
    (done rest : list pyobj) (o : pyobj) (acc : list verified) :
  check_each_sample_from self (S n) (length done) acc (done ++ o :: rest) =
    match resolve_sample (length done) o (done ++ o :: rest) with
    | (Ok s, l) =>
        match verify_sample self s with
        | Ok v => check_each_sample_from self n (S (length done)) (acc ++ [v]) l
        | Raise e => (Raise e, l)
        end
    | (Raise e, l) => (Raise e, l)
    end.
Proof.
  simpl. unfold mbind at 1. unfold ST_bind, bind at 1. unfold gets at 1.
  rewrite list_lookup_middle by done.
  unfold mbind at 1. unfold ST_bind, bind at 1.
  destruct (resolve_sample _ _ _) as [[s|e] l]; [|done].
  unfold mbind at 1. unfold ST_bind, bind at 1. unfold lift at 1.
  by destruct (verify_sample self s).
Qed.

(** Elements that pass are consumed one by one, in order. *)
Lemma check_each_sample_from_passes (self : engine) (pre pre' : list pyobj)
    (vs : list verified) :
  Forall3 (checked self) pre pre' vs →
  ∀ (done rest : list pyobj) (acc : list verified) (n : nat),
    check_each_sample_from self (length pre + n) (length done) acc (done ++ pre ++ rest)
    = check_each_sample_from self n (length (done ++ pre')) (acc ++ vs)
        ((done ++ pre') ++ rest).
Proof.
  induction 1 as [|o o' v pre pre' vs (s & Hres & Hver) _ IH]; intros done rest acc n.
  - by rewrite !app_nil_r.
  - change (length (o :: pre) + n) with (S (length pre + n)).
    change ((o :: pre) ++ rest) with (o :: (pre ++ rest)).
    rewrite check_each_sample_from_cons, resolve_sample_middle.
    assert (∀ X : Type, ∀ k : result (option LinkedSample) * list pyobj → X,
              k match o with
                | PyTensor t =>
                    if is_link t then
                      match _linked_sample t with
                      | Ok ls => (Ok (Some ls), done ++ PyLinkedSample ls :: pre ++ rest)
                      | Raise e => (Raise e, done ++ o :: pre ++ rest)
                      end
                    else (Raise (expected_linked_sample o), done ++ o :: pre ++ rest)
                | PyLinkedSample ls => (Ok (Some ls), done ++ o :: pre ++ rest)
                | PyNone => (Ok None, done ++ o :: pre ++ rest)
                | PyOther _ => (Raise (expected_linked_sample o), done ++ o :: pre ++ rest)
                end = k (Ok s, done ++ o' :: pre ++ rest)) as Hstep.
    { intros X k. destruct Hres as [|ls|t ls Hlink Hls]; try done.
      by rewrite Hlink, Hls. }
    rewrite (Hstep _ (λ x, match x with
                           | (Ok s, l) => _
                           | (Raise e, l) => _
                           end)).
    rewrite Hver.
    replace (S (length done)) with (length (done ++ [o'])) by (rewrite length_app; simpl; lia).
    replace (done ++ o' :: pre ++ rest) with ((done ++ [o']) ++ pre ++ rest)
      by (by rewrite <- app_assoc).
    rewrite IH. f_equal.
    + by rewrite <- !app_assoc.
    + by rewrite <- !app_assoc.
    + by rewrite <- !app_assoc.
Qed.

(** Every run of the loop is a prefix of elements that pass, followed by
    the end of the list or by the first element that fails. *)
Lemma check_each_sample_from_outcome (self : engine) (rest : list pyobj) :
  ∀ (done : list pyobj) (acc : list verified) r final,
    check_each_sample_from self (length rest) (length done) acc (done ++ rest) = (r, final) →
    match r with
    | Ok vs =>
        ∃ rest' vs', final = done ++ rest' ∧ vs = acc ++ vs'
                     ∧ Forall3 (checked self) rest rest' vs'
    | Raise e =>
        ∃ pre pre' vs' o o' post,
          rest = pre ++ o :: post
          ∧ final = done ++ pre' ++ o' :: post
          ∧ Forall3 (checked self) pre pre' vs'
          ∧ fails_at self o o' e
    end.
Proof.
  induction rest as [|o rest IH]; intros done acc r final.
  - simpl. unfold_st. intros [= <- <-]. exists [], []. rewrite !app_nil_r.
    split_and!; [done | done | constructor].
  - change (length (o :: rest)) with (S (length rest)).
    rewrite check_each_sample_from_cons, resolve_sample_middle.
    assert (∀ e, r = Raise e → final = done ++ o :: rest → fails_at self o o e →
              match r with
              | Ok vs =>
                  ∃ rest' vs', final = done ++ rest' ∧ vs = acc ++ vs'
                               ∧ Forall3 (checked self) (o :: rest) rest' vs'
              | Raise e =>
                  ∃ pre pre' vs' o0 o' post,
                    o :: rest = pre ++ o0 :: post
                    ∧ final = done ++ pre' ++ o' :: post
                    ∧ Forall3 (checked self) pre pre' vs'
                    ∧ fails_at self o0 o' e
              end) as Hstop.
    { intros e -> -> Hf. exists [], [], [], o, o, rest. simpl.
      split_and!; [done | done | constructor | done]. }
    assert (∀ s o', resolves o s o' →
              match verify_sample self s with
              | Ok v => check_each_sample_from self (length rest) (S (length done))
                          (acc ++ [v]) (done ++ o' :: rest)
              | Raise e => (Raise e, done ++ o' :: rest)
              end = (r, final) →
              match r with
              | Ok vs =>
                  ∃ rest' vs', final = done ++ rest' ∧ vs = acc ++ vs'
                               ∧ Forall3 (checked self) (o :: rest) rest' vs'
              | Raise e =>
                  ∃ pre pre' vs' o0 o'0 post,
                    o :: rest = pre ++ o0 :: post
                    ∧ final = done ++ pre' ++ o'0 :: post
                    ∧ Forall3 (checked self) pre pre' vs'
                    ∧ fails_at self o0 o'0 e
              end) as Hgo.
    { intros s o' Hres. destruct (verify_sample self s) as [v|e] eqn:Hver.
      - replace (S (length done)) with (length (done ++ [o']))
          by (rewrite length_app; simpl; lia).
        replace (done ++ o' :: rest) with ((done ++ [o']) ++ rest)
          by (by rewrite <- app_assoc).
        intros Hrun. apply IH in Hrun. destruct r as [vs|e].
        + destruct Hrun as (rest' & vs' & -> & -> & Hall).
          exists (o' :: rest'), (v :: vs'). rewrite <- !app_assoc. simpl.
          split_and!; [done | done |]. constructor; [|done]. by exists s.
        + destruct Hrun as (pre & pre' & vs' & o0 & o'0 & post & -> & -> & Hall & Hf).
          exists (o :: pre), (o' :: pre'), (v :: vs'), o0, o'0, post.
          rewrite <- !app_assoc. simpl.
          split_and!; [done | done | | done]. constructor; [|done]. by exists s.
      - intros [= <- <-]. exists [], [], [], o, o', rest. simpl.
        split_and!; [done | done | constructor |].
        right. right. by exists s. }
    destruct o as [|ls|t|cls].
    + apply Hgo. constructor.
    + apply Hgo. constructor.
    + destruct (is_link t) eqn:Hlink.
      * destruct (_linked_sample t) as [ls|e] eqn:Hls.
        -- apply Hgo. by constructor.
        -- intros [= <- <-]. apply (Hstop e); [done | done |].
           right. left. split; [done|]. by exists t.
      * intros [= <- <-]. apply (Hstop (expected_linked_sample (PyTensor t))); [done | done |].
        left. simpl. by rewrite Hlink.
    + intros [= <- <-]. apply (Hstop (expected_linked_sample (PyOther cls))); [done | done |].
      by left.
Qed.

Lemma check_each_sample_outcome (self : engine) (samples : list pyobj) r final :
  check_each_sample self samples = (r, final) →
  match r with
  | Ok vs => Forall3 (checked self) samples final vs
  | Raise e =>
      ∃ pre pre' vs' o o' post,
        samples = pre ++ o :: post
        ∧ final = pre' ++ o' :: post
        ∧ Forall3 (checked self) pre pre' vs'
        ∧ fails_at self o o' e
  end.
Proof.
  unfold check_each_sample. unfold_st. intros Hrun.
  apply (check_each_sample_from_outcome self samples [] []) in Hrun.
  destruct r as [vs|e].
  - by destruct Hrun as (rest' & vs' & -> & -> & Hall).
  - done.
Qed.

Lemma check_each_sample_passes (self : engine) (pre pre' : list pyobj)
    (vs : list verified) (rest : list pyobj) :
  Forall3 (checked self) pre pre' vs →
  check_each_sample self (pre ++ rest)
  = check_each_sample_from self (length rest) (length pre') vs (pre' ++ rest).
Proof.
  intros Hall. unfold check_each_sample. unfold_st. rewrite length_app.
  pose proof (check_each_sample_from_passes self pre pre' vs Hall [] rest []
                (length rest)) as Hrun.
  simpl in Hrun. by rewrite Hrun.
Qed.

(** C3. [check_each_sample] lets through exactly [None], [LinkedSample]
    objects and views of link tensors.  When it returns, every input was one
    of these, and the returned list has, position by position, the outcome
    for the input at that position: the sample itself when it is [None] or
    has an empty path, else what [read_linked_sample] returned for it.  When
    the loop reaches a sample of any other type it raises the [TypeError]
    whose message names that type.  A run that raises stops at the first
    sample that does not pass: rejected by the type test, not resolvable, or
    failing the credential check or the read.  When every sample passes, the
    call returns. *)
Theorem check_each_sample_accepts_exactly (self : engine) (samples : list pyobj) :
  (∀ vs final, check_each_sample self samples = (Ok vs, final) →
     Forall (λ o, accepted_variant o = true) samples
     ∧ Forall2 (λ o v, ∃ s o', resolves o s o' ∧ verify_sample self s = Ok v) samples vs)
  ∧ (∀ pre pre' vs o post,
       samples = pre ++ o :: post →
       Forall3 (checked self) pre pre' vs →
       accepted_variant o = false →
       check_each_sample self samples
       = (Raise (expected_linked_sample o), pre' ++ o :: post)
       ∧ exn_cls (expected_linked_sample o) = TypeError
       ∧ TypeRepr (type_of o) ∈ exn_msg (expected_linked_sample o))
  ∧ (∀ e final, check_each_sample self samples = (Raise e, final) →
       ∃ pre pre' vs o o' post,
         samples = pre ++ o :: post
         ∧ Forall3 (checked self) pre pre' vs
         ∧ fails_at self o o' e)
  ∧ (∀ final vs, Forall3 (checked self) samples final vs →
       check_each_sample self samples = (Ok vs, final))
  ∧ (∀ s v, verify_sample self s = Ok v →
       match s with
       | None => v = Unread None
       | Some ls =>
           if bool_decide (path ls = "") then v = Unread (Some ls)
           else ∃ r, read_linked_sample (path ls) (creds_key_of ls) (link_creds self)
                       (verify self) = Ok r
                     ∧ v = Loaded r
       end).
Proof.
  split_and!.
  - intros vs final Hrun. apply check_each_sample_outcome in Hrun.
    split.
    + induction Hrun as [|o o' v l k k' (s & Hres & _) _ IH]; constructor; [|done].
      by eapply resolves_accepted.
    + induction Hrun as [|o o' v l k k' (s & Hres & Hver) _ IH]; constructor; [|done].
      by exists s, o'.
  - intros pre pre' vs o post -> Hall Hrej. split_and!.
    + rewrite (check_each_sample_passes self pre pre' vs _ Hall).
      change (length (o :: post)) with (S (length post)).
      rewrite check_each_sample_from_cons, resolve_sample_middle.
      destruct o as [|ls|t|cls]; simpl in Hrej; try done.
      by rewrite Hrej.
    + done.
    + unfold expected_linked_sample. simpl. set_solver.
  - intros e final Hrun. apply check_each_sample_outcome in Hrun.
    destruct Hrun as (pre & pre' & vs & o & o' & post & -> & -> & Hall & Hf).
    by exists pre, pre', vs, o, o', post.
  - intros final vs Hall.
    pose proof (check_each_sample_passes self samples final vs [] Hall) as Hrun.
    rewrite !app_nil_r in Hrun. rewrite Hrun. done.
  - intros s v. unfold verify_sample.
    destruct (get_path_creds_key s) as [p k].
    destruct (get_encoding (link_creds self) k p) as [code|e]; [|intros [=]].
    destruct s as [ls|]; [|by intros [= <-]].
    case_bool_decide; [by intros [= <-]|].
    destruct (read_linked_sample _ _ _ _) as [r|e]; [|intros [=]].
    intros [= <-]. by exists r.
Qed.

(** C10. [check_each_sample] works on the caller's list.  Whatever the
    outcome, the list keeps its length, an element changes only by a view of
    a link tensor being overwritten with the [LinkedSample] it resolves to,
    and every element that is not such a view is left as it was.  When the
    call returns, every tensor view in the list was a view of a link tensor
    and has been overwritten with its resolved [LinkedSample]. *)
Theorem check_each_sample_mutates_in_place (self : engine) (samples : list pyobj)
    r final :
  check_each_sample self samples = (r, final) →
  length final = length samples
  ∧ (∀ j o, samples !! j = Some o →
       final !! j = Some o
       ∨ ∃ t ls, o = PyTensor t ∧ is_link t = true ∧ _linked_sample t = Ok ls
                 ∧ final !! j = Some (PyLinkedSample ls))
  ∧ (∀ j o, samples !! j = Some o → (∀ t, o = PyTensor t → is_link t = false) →
       final !! j = Some o)
  ∧ (is_ok r = true →
       ∀ j t, samples !! j = Some (PyTensor t) →
         ∃ ls, is_link t = true ∧ _linked_sample t = Ok ls
               ∧ final !! j = Some (PyLinkedSample ls)).
Proof.
  intros Hrun. apply check_each_sample_outcome in Hrun.
  set (in_place := λ o o' : pyobj,
         o' = o ∨ ∃ t ls, o = PyTensor t ∧ is_link t = true
                          ∧ _linked_sample t = Ok ls ∧ o' = PyLinkedSample ls).
  assert (∀ o s o', resolves o s o' → in_place o o') as Hres_in.
  { intros o s o' [|ls|t ls Hl Hs]; [by left | by left |]. right. by exists t, ls. }
  assert (∀ pre pre' vs, Forall3 (checked self) pre pre' vs → Forall2 in_place pre pre')
    as Hall_in.
  { induction 1 as [|o o' v l k k' (s & Hres & _) _ IH]; constructor; [|done]. eauto. }
  assert (Forall2 in_place samples final) as Hin.
  { destruct r as [vs|e].
    - by eapply Hall_in.
    - destruct Hrun as (pre & pre' & vs & o & o' & post & -> & -> & Hall & Hf).
      apply Forall2_app; [by eapply Hall_in|]. constructor.
      + destruct Hf as [(-> & _)|[(-> & _)|(s & Hres & _)]]; [by left | by left | eauto].
      + apply Forall2_same_length_lookup_2; [done|]. intros i x y Hx Hy.
        left. congruence. }
  split_and!.
  - symmetry. by eapply Forall2_length.
  - intros j o Hj.
    destruct (Forall2_lookup_l _ _ _ _ _ Hin Hj) as (o' & Hj' & [->|(t & ls & -> & Hl & Hs & ->)]).
    + by left.
    + right. by exists t, ls.
  - intros j o Hj Hnot.
    destruct (Forall2_lookup_l _ _ _ _ _ Hin Hj) as (o' & Hj' & [->|(t & ls & -> & Hl & Hs & ->)]).
    + done.
    + rewrite (Hnot t eq_refl) in Hl. discriminate.
  - intros Hok j t Hj. destruct r as [vs|e]; [|done].
    destruct (Forall3_lookup_l _ _ _ _ _ _ Hrun Hj) as (o' & v & Hj' & _ & (s & Hres & _)).
    inversion Hres; subst. by exists ls.
Qed.

(** *** Registering the credentials of appended samples *)

Lemma num_samples_register_samples (v : Z) (count : nat) (enc : RunLength.t) :
  RunLength.num_samples (RunLength.register_samples v count enc)
  = RunLength.num_samples enc + count.
Proof.
  unfold RunLength.num_samples.
  induction enc as [|[w k] rest IH]; simpl; [lia|].
  destruct rest as [|r rest'].
  - case_bool_decide; simpl; lia.
  - change (sum_list (snd <$> (w, k) :: RunLength.register_samples v count (r :: rest')))
      with (k + sum_list (snd <$> RunLength.register_samples v count (r :: rest'))).
    rewrite IH. simpl. lia.
Qed.

Lemma lookup_run_register_samples (v : Z) (count : nat) (enc : RunLength.t) (j : nat) :
  RunLength.lookup_run j (RunLength.register_samples v count enc)
  = if decide (j < RunLength.num_samples enc) then RunLength.lookup_run j enc
    else if decide (j < RunLength.num_samples enc + count) then Some v else None.
Proof.
  unfold RunLength.num_samples. revert j.
  induction enc as [|[w k] rest IH]; intros j; simpl.
  - repeat case_decide; try done; lia.
  - destruct rest as [|r rest'].
    + simpl. case_bool_decide as Hw; simpl.
      * subst w. repeat case_decide; try done; lia.
      * repeat case_decide; try done; lia.
    + change (RunLength.lookup_run j
                ((w, k) :: RunLength.register_samples v count (r :: rest')))
        with (if decide (j < k) then Some w
              else RunLength.lookup_run (j - k)
                     (RunLength.register_samples v count (r :: rest'))).
      rewrite IH.
      change (sum_list (snd <$> (w, k) :: r :: rest'))
        with (k + sum_list (snd <$> r :: rest')).
      change (RunLength.lookup_run j ((w, k) :: r :: rest'))
        with (if decide (j < k) then Some w
              else RunLength.lookup_run (j - k) (r :: rest')).
      unfold fmap.
      generalize (sum_list (list_fmap _ _ snd (r :: rest'))). intros total.
      repeat case_decide; try done; exfalso; lia.
Qed.

Lemma register_all_grows (codes : list Z) (enc : RunLength.t) :
  RunLength.num_samples (register_all codes enc)
  = RunLength.num_samples enc + length codes
  ∧ (∀ j, j < RunLength.num_samples enc →
       RunLength.lookup_run j (register_all codes enc) = RunLength.lookup_run j enc)
  ∧ (∀ i code, codes !! i = Some code →
       RunLength.lookup_run (RunLength.num_samples enc + i) (register_all codes enc)
       = Some code).
Proof.
  revert enc. induction codes as [|c codes IH]; intros enc.
  - split_and!; [simpl; lia | done | intros i code Hi; by rewrite lookup_nil in Hi].
  - change (register_all (c :: codes) enc)
      with (register_all codes (RunLength.register_samples c 1 enc)).
    destruct (IH (RunLength.register_samples c 1 enc)) as (Hnum & Hold & Hnew).
    rewrite num_samples_register_samples in Hnum, Hold, Hnew.
    split_and!.
    + rewrite Hnum. simpl. lia.
    + intros j Hj. rewrite Hold by lia.
      rewrite lookup_run_register_samples. by rewrite decide_True.
    + intros [|i] code Hi; simpl in Hi.
      * injection Hi as ->.
        rewrite Hold by lia. rewrite lookup_run_register_samples.
        rewrite decide_False by lia. rewrite decide_True by lia. done.
      * specialize (Hnew i code Hi).
        replace (RunLength.num_samples enc + S i)
          with (RunLength.num_samples enc + 1 + i) by lia. done.
Qed.

Lemma registers_length lc samples codes evs lc' :
  registers lc samples codes evs lc' → length codes = length samples.
Proof. induction 1; simpl; congruence. Qed.

Lemma registers_already_used lc samples codes evs lc' :
  marks_first_use →
  registers lc samples codes evs lc' →
  (∀ sample, sample ∈ samples → (get_path_creds_key sample).2 ∈ used_creds_keys lc) →
  evs = [] ∧ used_creds_keys lc' = used_creds_keys lc.
Proof.
  intros Hlaw.
  induction 1 as [lc
                 |lc sample rest p k code codes evs lc1 lc' Hpk Hcode Heq Hnew Hreg IH
                 |lc sample rest p k code codes evs lc1 lc' Hpk Hcode Heq Hnew Hreg IH];
    intros Hused.
  - done.
  - exfalso. destruct Hnew as [Hnew _]. apply Hnew.
    specialize (Hused sample). rewrite Hpk in Hused. apply Hused. by left.
  - assert (k ∈ used_creds_keys lc) as Hk.
    { specialize (Hused sample). rewrite Hpk in Hused. apply Hused. by left. }
    destruct (Hlaw lc k) as (Hsub & Hsup & _). rewrite <- Heq in Hsub, Hsup.
    assert (used_creds_keys lc1 = used_creds_keys lc) as Hsame.
    { apply set_eq. intros x. split; [|apply Hsub].
      intros Hx. apply Hsup, elem_of_union in Hx as [Hx|Hx]; [done|].
      apply elem_of_singleton in Hx. by subst x. }
    rewrite Hsame in IH. apply IH. intros sample' Hin. apply Hused. by right.
Qed.

Lemma register_new_creds_body_ok (enc : option oid)
    (samples : list (option LinkedSample)) (i : nat) (st st' : engine) :
  register_new_creds_body enc samples i st = (Ok tt, st') →
  ∃ sample code o enc0,
    samples !! i = Some sample
    ∧ get_encoding (link_creds st) (get_path_creds_key sample).2
        (get_path_creds_key sample).1 = Ok code
    ∧ enc = Some o
    ∧ objects st !! o = Some enc0
    ∧ link_creds st' = (add_to_used_creds (link_creds st) (get_path_creds_key sample).2).2
    ∧ objects st' = <[o := RunLength.register_samples code 1 enc0]> (objects st)
    ∧ log st' = log st ++
        (if (add_to_used_creds (link_creds st) (get_path_creds_key sample).2).1
         then [SaveLinkCreds (add_to_used_creds (link_creds st)
                                (get_path_creds_key sample).2).2;
               WarnMissingManagedCreds (add_to_used_creds (link_creds st)
                                          (get_path_creds_key sample).2).2]
         else []).
Proof.
  unfold register_new_creds_body, list_getitem. unfold_st.
  destruct (samples !! i) as [sample|]; [|intros [=]].
  destruct (get_path_creds_key sample) as [p k] eqn:Hpk. simpl.
  destruct (get_encoding (link_creds st) k p) as [code|e] eqn:Hcode; [|intros [=]].
  unfold encoder_register_samples. destruct enc as [o|]; [|intros [=]].
  unfold_st. destruct (objects st !! o) as [enc0|] eqn:Ho; [|intros [=]]. simpl.
  unfold link_creds_add_to_used_creds, save_link_creds, warn_missing_managed_creds.
  unfold_st. simpl.
  destruct (add_to_used_creds (link_creds st) k) as [[|] lc1] eqn:Hadd; simpl.
  - destruct (util_save_link_creds lc1) as [[]|e]; [|intros [=]].
    destruct (util_warn_missing_managed_creds lc1) as [[]|e]; [|intros [=]].
    intros [= <-]. exists sample, code, o, enc0. rewrite Hpk. simpl. rewrite Hadd. simpl.
    split_and!; [done | done | done | done | done | done |].
    by rewrite <- app_assoc.
  - intros [= <-]. exists sample, code, o, enc0. rewrite Hpk. simpl. rewrite Hadd. simpl.
    split_and!; [done | done | done | done | done | done |].
    by rewrite app_nil_r.
Qed.

Lemma register_new_creds_loop (enc : option oid) (samples : list (option LinkedSample)) :
  marks_first_use →
  ∀ (n i0 : nat) (st st' : engine),
    for_each (seq i0 n) (register_new_creds_body enc samples) st = (Ok tt, st') →
    ∃ codes evs,
      length (take n (drop i0 samples)) = n
      ∧ registers (link_creds st) (take n (drop i0 samples)) codes evs (link_creds st')
      ∧ log st' = log st ++ evs
      ∧ (∀ o enc0, enc = Some o → objects st !! o = Some enc0 →
           objects st' !! o = Some (register_all codes enc0)).
Proof.
  intros Hlaw. induction n as [|n IH]; intros i0 st st'.
  - simpl. unfold_st. intros [= <-]. exists [], []. rewrite take_0.
    split_and!; [done | constructor | by rewrite app_nil_r | done].
  - change (seq i0 (S n)) with (i0 :: seq (S i0) n).
    change (for_each (i0 :: seq (S i0) n) (register_new_creds_body enc samples) st)
      with (bind (register_new_creds_body enc samples i0)
              (λ _, for_each (seq (S i0) n) (register_new_creds_body enc samples)) st).
    unfold bind at 1.
    destruct (register_new_creds_body enc samples i0 st) as [[[]|e] st1] eqn:Hbody;
      [|intros [=]].
    intros Hrest.
    apply register_new_creds_body_ok in Hbody
      as (sample & code & o & enc0 & Hi & Hcode & -> & Ho & Hlc & Hobj & Hlog).
    apply IH in Hrest as (codes & evs & Hlen & Hreg & Hlog' & Hobj').
    rewrite (drop_S _ _ _ Hi). rewrite firstn_cons.
    destruct (get_path_creds_key sample) as [p k] eqn:Hpk. simpl in *.
    destruct (Hlaw (link_creds st) k) as (_ & _ & Hfirst).
    rewrite Hlc in Hreg.
    assert (objects st1 !! o = Some (RunLength.register_samples code 1 enc0)) as Ho1.
    { rewrite Hobj. apply list_lookup_insert_eq. by eapply lookup_lt_Some. }
    destruct (add_to_used_creds (link_creds st) k).1 eqn:Hb.
    + exists (code :: codes),
        (SaveLinkCreds (add_to_used_creds (link_creds st) k).2
         :: WarnMissingManagedCreds (add_to_used_creds (link_creds st) k).2 :: evs).
      split_and!.
      * simpl. by rewrite Hlen.
      * eapply registers_first;
          [exact Hpk | exact Hcode | reflexivity | by apply Hfirst | exact Hreg].
      * rewrite Hlog', Hlog. by rewrite <- app_assoc.
      * intros o' enc0' [= <-] Ho'. rewrite Ho in Ho'. injection Ho' as <-.
        by apply Hobj'.
    + exists (code :: codes), evs.
      split_and!.
      * simpl. by rewrite Hlen.
      * eapply registers_again; [exact Hpk | exact Hcode | reflexivity | | exact Hreg].
        intros Hf. apply Hfirst in Hf. congruence.
      * rewrite Hlog', Hlog. by rewrite app_nil_r.
      * intros o' enc0' [= <-] Ho'. rewrite Ho in Ho'. injection Ho' as <-.
        by apply Hobj'.
Qed.

(** C4. A call [register_new_creds(num_samples_added, samples)] that returns
    has encoded, for each of the [num_samples_added] samples just appended
    (the first that many of [samples]), the id of that sample's credential key
    into the encoder of the current commit, one sample at a time and in
    order: the encoder covers [num_samples_added] more indices, the indices
    it covered before keep their values, and the new indices hold those ids.
    The registry is saved, and the warning about unmanaged credentials is
    issued, exactly for the samples whose key becomes marked as used for the
    first time; the loop goes on after the warning.  When every key was
    already marked as used, nothing is saved and no warning is issued. *)
Theorem register_new_creds_encodes_and_saves_on_first_use
    (num_samples_added : Z) (samples : list (option LinkedSample)) (st st' : engine) :
  marks_first_use →
  register_new_creds num_samples_added samples st = (Ok tt, st') →
  let n := Z.to_nat num_samples_added in
  ∃ enc st1 codes evs,
    creds_encoder st = (Ok enc, st1)
    ∧ (n ≤ length samples)%nat
    ∧ length codes = n
    ∧ registers (link_creds st1) (take n samples) codes evs (link_creds st')
    ∧ log st' = log st1 ++ evs
    ∧ (∀ o enc0, enc = Some o → objects st1 !! o = Some enc0 →
         ∃ enc1,
           objects st' !! o = Some enc1
           ∧ RunLength.num_samples enc1 = RunLength.num_samples enc0 + n
           ∧ (∀ j, j < RunLength.num_samples enc0 →
                RunLength.lookup_run j enc1 = RunLength.lookup_run j enc0)
           ∧ (∀ i code, codes !! i = Some code →
                RunLength.lookup_run (RunLength.num_samples enc0 + i) enc1 = Some code))
    ∧ ((∀ sample, sample ∈ take n samples →
          (get_path_creds_key sample).2 ∈ used_creds_keys (link_creds st1)) →
       evs = [] ∧ log st' = log st1
       ∧ used_creds_keys (link_creds st') = used_creds_keys (link_creds st1)).
Proof.
  intros Hlaw Hrun n. unfold register_new_creds in Hrun.
  unfold mbind at 1 in Hrun. unfold ST_bind, bind at 1 in Hrun.
  destruct (creds_encoder st) as [[enc|e] st1] eqn:Henc; [|discriminate].
  fold n in Hrun.
  apply (register_new_creds_loop enc samples Hlaw) in Hrun
    as (codes & evs & Hlen & Hreg & Hlog & Hobj).
  rewrite drop_0 in Hlen, Hreg.
  pose proof (registers_length _ _ _ _ _ Hreg) as Hcodes.
  exists enc, st1, codes, evs. split_and!; try done.
  - rewrite length_take in Hlen. lia.
  - by rewrite Hcodes.
  - intros o enc0 Ho Henc0. exists (register_all codes enc0).
    destruct (register_all_grows codes enc0) as (Hnum & Hold & Hnew).
    split_and!; [by eapply Hobj | | done | done].
    rewrite Hnum, Hcodes. lia.
  - intros Hused.
    destruct (registers_already_used _ _ _ _ _ Hlaw Hreg Hused) as [-> Heq].
    split_and!; [done | by rewrite Hlog, app_nil_r | done].
Qed.

End Properties.

(** ** The engine at work on the small implementation *)

(** ** Further properties of the engine *)

Section MoreProperties.
Context `{ChunkImports}.
Local Open Scope list_scope.

Lemma run_bind {S A B : Type} (m : ST S A) (k : A → ST S B) (st : S) :
  (m ≫= k) st
  = match m st with
    | (Ok a, st') => k a st'
    | (Raise e, st') => (Raise e, st')
    end.
Proof. reflexivity. Qed.

(** *** The encoder property *)

Lemma creds_encoder_exists_hit (st : engine) :
  holds_current_encoder st → creds_encoder_exists st = (Ok true, st).
Proof.
  intros [Hsome Hcommit]. unfold creds_encoder_exists. unfold_st. simpl.
  rewrite (bool_decide_eq_true_2 (_creds_encoder st ≠ None)) by done.
  rewrite (bool_decide_eq_true_2 _ Hcommit). done.
Qed.

(** What an access leaves alone, whatever its outcome; and what it
    establishes when it returns. *)
Lemma creds_encoder_effect (st : engine) r st' :
  creds_encoder st = (r, st') →
  (link_creds st' = link_creds st ∧ log st' = log st ∧ key st' = key st
   ∧ commit_id st' = commit_id st
   ∧ tensor_meta_is_link st' = tensor_meta_is_link st
   ∧ tensor_meta_verify st' = tensor_meta_verify st)
  ∧ (∀ enc, r = Ok enc → holds_current_encoder st' ∧ _creds_encoder st' = enc).
Proof.
  destruct (decide (holds_current_encoder st)) as [Hhit|Hmiss].
  - rewrite (creds_encoder_hit st Hhit). intros [= <- <-].
    split; [done|]. intros enc [= <-]. done.
  - rewrite (creds_encoder_miss st Hmiss). simpl.
    destruct (cache_getitem (meta_cache st) _) as [[[]|e] mc1]; simpl.
    + destruct (get_hub_object mc1 (objects st) _) as [[enc|e] [mc2 os]]; simpl.
      * destruct (register_hub_object mc2 _ enc) as [[[]|e] mc3]; simpl;
          intros [= <- <-]; simpl; (split; [done|]); intros enc' [= <-].
        by split.
      * intros [= <- <-]. simpl. split; [done|]. intros enc' [=].
    + case_bool_decide as Hk; simpl.
      * destruct (cache_setitem mc1 _ _) as [[[]|e'] mc2]; simpl.
        -- destruct (register_hub_object mc2 _ _) as [[[]|e''] mc3]; simpl;
             intros [= <- <-]; simpl; (split; [done|]); intros enc' [= <-].
           by split.
        -- case_bool_decide as Hro; simpl.
           ++ destruct (register_hub_object mc2 _ _) as [[[]|e''] mc3]; simpl;
                intros [= <- <-]; simpl; (split; [done|]); intros enc' [= <-].
              by split.
           ++ intros [= <- <-]. simpl. split; [done|]. intros enc' [=].
      * intros [= <- <-]. simpl. split; [done|]. intros enc' [=].
Qed.

(** X1. An access that returned is repeatable: the next access returns the
    same encoder, calls nothing of the cache and leaves the engine as it is. *)
Theorem creds_encoder_repeatable (st st' : engine) (enc : option oid) :
  creds_encoder st = (Ok enc, st') →
  creds_encoder st' = (Ok enc, st').
Proof.
  intros Hrun. destruct (creds_encoder_effect st _ _ Hrun) as [_ Hpost].
  destruct (Hpost enc eq_refl) as [Hholds <-].
  by apply creds_encoder_hit.
Qed.

(** X2. Once the encoder was accessed, [creds_encoder_exists] answers [True]
    from the engine's own fields, without a probe of the cache. *)
Theorem creds_encoder_exists_after_access (st st' : engine) (enc : option oid) :
  creds_encoder st = (Ok enc, st') →
  creds_encoder_exists st' = (Ok true, st').
Proof.
  intros Hrun. destruct (creds_encoder_effect st _ _ Hrun) as [_ Hpost].
  destruct (Hpost enc eq_refl) as [Hholds _].
  by apply creds_encoder_exists_hit.
Qed.

(** X3. When [creds_encoder_exists] answers [False], an access that returns
    has created a new encoder object: it is appended to the objects there
    were, which are all left as they are, and it is empty. *)
Theorem creds_encoder_creates_when_absent (st st' : engine) (enc : option oid) :
  (creds_encoder_exists st).1 = Ok false →
  creds_encoder st = (Ok enc, st') →
  enc = Some (length (objects st))
  ∧ objects st' = objects st ++ [RunLength.empty]
  ∧ (∀ o e, objects st !! o = Some e → objects st' !! o = Some e)
  ∧ objects st' !! length (objects st) = Some RunLength.empty.
Proof.
  intros Hexists Hrun.
  assert (¬ holds_current_encoder st) as Hmiss.
  { intros Hhit. rewrite (creds_encoder_exists_hit st Hhit) in Hexists. discriminate. }
  rewrite (creds_encoder_exists_miss st Hmiss) in Hexists.
  rewrite (creds_encoder_miss st Hmiss) in Hrun. simpl in Hrun.
  assert (∀ os : list RunLength.t,
            (∀ o e, os !! o = Some e → (os ++ [RunLength.empty]) !! o = Some e)
            ∧ (os ++ [RunLength.empty]) !! length os = Some RunLength.empty) as Happ.
  { intros os. split.
    - intros o e Ho. by apply lookup_app_l_Some.
    - rewrite lookup_app_r by lia. by rewrite Nat.sub_diag. }
  destruct (cache_getitem (meta_cache st) (current_key st)) as [[[]|e] mc1];
    simpl in Hexists; [discriminate|].
  destruct (bool_decide (exn_cls e = KeyError)); simpl in Hexists; [|discriminate].
  destruct (cache_setitem mc1 _ _) as [[[]|e'] mc2]; simpl in Hrun.
  - destruct (register_hub_object mc2 _ _) as [[[]|e''] mc3]; simpl in Hrun;
      [|discriminate].
    injection Hrun as <- <-. simpl. destruct (Happ (objects st)). done.
  - destruct (bool_decide (exn_cls e' = ReadOnlyModeError)); simpl in Hrun;
      [|discriminate].
    destruct (register_hub_object mc2 _ _) as [[[]|e''] mc3]; simpl in Hrun;
      [|discriminate].
    injection Hrun as <- <-. simpl. destruct (Happ (objects st)). done.
Qed.

(** X4. An access to the encoder, whatever its outcome, leaves the
    credential registry and the log of saves and warnings as they are. *)
Theorem creds_encoder_keeps_registry_and_log (st : engine) :
  link_creds (creds_encoder st).2 = link_creds st
  ∧ log (creds_encoder st).2 = log st
  ∧ commit_id (creds_encoder st).2 = commit_id st.
Proof.
  destruct (creds_encoder st) as [r st'] eqn:Hrun.
  destruct (creds_encoder_effect st _ _ Hrun) as [(Hlc & Hlog & _ & Hc & _) _].
  done.
Qed.

(** *** The read methods resolve a sample in one way *)

Lemma linked_sample_run (i : Z) (st st1 : engine) (ls : LinkedSample) :
  linked_sample i st = (Ok ls, st1) →
  ∃ enc code,
    creds_encoder st = (Ok enc, st1)
    ∧ get_path i st1 = (Ok (path ls), st1)
    ∧ encoder_get_encoded_creds_key enc i st1 = (Ok code, st1)
    ∧ get_creds_key (link_creds st1) code = Ok (creds_key_of ls).
Proof.
  unfold linked_sample. unfold mbind at 1. unfold ST_bind, bind at 1.
  destruct (creds_encoder st) as [[enc|e] st0] eqn:Henc; [|intros [=]].
  unfold mbind at 1. unfold ST_bind, bind at 1.
  pose proof (get_path_pure i st0) as Hp.
  destruct (get_path i st0) as [[p|e] st0'] eqn:Hpath; simpl in Hp; subst st0';
    [|intros [=]].
  unfold mbind at 1. unfold ST_bind, bind at 1.
  pose proof (encoder_get_encoded_creds_key_pure enc i st0) as Hc.
  destruct (encoder_get_encoded_creds_key enc i st0) as [[code|e] st0'] eqn:Hcode;
    simpl in Hc; subst st0'; [|intros [=]].
  unfold_st.
  destruct (get_creds_key (link_creds st0) code) as [k|e] eqn:Hkey; [|intros [=]].
  intros [= <- <-]. simpl. by exists enc, code.
Qed.

(** X5. The read methods resolve a sample exactly as [linked_sample] does:
    when [linked_sample] returns the path and the credential key of a sample,
    [get_hub_read_sample] reads that path with that key (or returns [None] for
    the empty path), and [get_video_url] returns that path, or the URL
    presigned by the storage client of that key. *)
Theorem read_methods_agree_with_linked_sample (i : Z) (st st1 : engine)
    (ls : LinkedSample) :
  linked_sample i st = (Ok ls, st1) →
  get_hub_read_sample i st
  = (if bool_decide (path ls = "") then Ok None
     else match read_linked_sample (path ls) (creds_key_of ls) (link_creds st1) false with
          | Ok r => Ok (Some r)
          | Raise e => Raise e
          end, st1)
  ∧ (is_object_storage_path (path ls) = false →
       get_video_url i st = (Ok (path ls), st1))
  ∧ (is_object_storage_path (path ls) = true →
       ∀ r lc,
         get_storage_provider (link_creds st1) (creds_key_of ls)
           (if startswith (path ls) "s3://" then "s3" else "gcs") = (r, lc) →
         get_video_url i st
         = (match r with
            | Ok storage => get_presigned_url storage (path ls) true
            | Raise e => Raise e
            end, set_link_creds lc st1)).
Proof.
  intros Hrun.
  destruct (linked_sample_run i st st1 ls Hrun) as (enc & code & Henc & Hpath & Hcode & Hkey).
  split_and!.
  - unfold get_hub_read_sample. unfold mbind at 1. unfold ST_bind, bind at 1.
    rewrite Henc. unfold mbind at 1. unfold ST_bind, bind at 1. rewrite Hpath.
    case_bool_decide; [done|].
    unfold mbind at 1. unfold ST_bind, bind at 1. rewrite Hcode.
    unfold_st. rewrite Hkey.
    by destruct (read_linked_sample _ _ _ _).
  - intros Hlocal. unfold get_video_url. unfold mbind at 1. unfold ST_bind, bind at 1.
    rewrite Henc. unfold mbind at 1. unfold ST_bind, bind at 1. rewrite Hpath.
    unfold mbind at 1. unfold ST_bind, bind at 1. rewrite Hcode.
    unfold_st. rewrite Hkey, Hlocal. done.
  - intros Hcloud r lc Hprov. unfold get_video_url.
    unfold mbind at 1. unfold ST_bind, bind at 1.
    rewrite Henc. unfold mbind at 1. unfold ST_bind, bind at 1. rewrite Hpath.
    unfold mbind at 1. unfold ST_bind, bind at 1. rewrite Hcode.
    unfold link_creds_get_storage_provider. unfold_st. rewrite Hkey, Hcloud, Hprov.
    destruct r as [storage|e]; [|done].
    by destruct (get_presigned_url storage (path ls) true).
Qed.

(** X6. For an empty sample the shape that [read_shape_for_sample] reports
    is the shape of the array that [get_basic_sample] returns, [(0,)], for
    every index; both leave the engine in the same state. *)
Theorem empty_sample_shape_is_shape_of_its_array (i : Z) (st st' : engine) :
  get_hub_read_sample i st = (Ok None, st') →
  read_shape_for_sample i st = (Ok [0], st')
  ∧ ∀ index fetch_chunks,
      ∃ a, get_basic_sample i index fetch_chunks st = (Ok a, st')
           ∧ Ok (shape a) = (read_shape_for_sample i st).1.
Proof.
  intros Hread.
  assert (read_shape_for_sample i st = (Ok [0], st')) as Hshape.
  { unfold read_shape_for_sample. unfold mbind at 1. unfold ST_bind, bind at 1.
    by rewrite Hread. }
  split; [done|]. intros index fetch_chunks. exists (np_ones one [0]).
  rewrite Hshape. split; [|done].
  unfold get_basic_sample. unfold mbind at 1. unfold ST_bind, bind at 1.
  by rewrite Hread.
Qed.

(** X7. [read_sample_from_chunk] and [get_hub_read_sample] agree: when the
    chunk holds the path the engine resolves for the sample, the first
    returns the array of length zero where the second returns [None], the
    very sample the second read otherwise, and the same error when the second
    raises; and both leave the engine in the same state. *)
Theorem read_sample_from_chunk_agrees (i local : Z) (chunk : BaseChunk)
    (cast copy decompress : bool) (p : string) (more : list string) (st : engine) :
  translate_index_relative_to_chunks i = Ok local →
  chunk_read_sample chunk local cast copy decompress = Ok (p :: more) →
  (is_ok (creds_encoder st).1 = true → (get_path i (creds_encoder st).2).1 = Ok p) →
  read_sample_from_chunk i chunk cast copy decompress st
  = (match (get_hub_read_sample i st).1 with
     | Ok None => Ok (EmptyArray (np_ones one [0]))
     | Ok (Some r) => Ok (LinkedRead r)
     | Raise e => Raise e
     end, (get_hub_read_sample i st).2).
Proof.
  intros Hlocal Hchunk Hsame.
  assert (read_sample_from_chunk i chunk cast copy decompress st
          = (enc ← creds_encoder;
             if bool_decide (p = "") then mret (EmptyArray (np_ones one [0]))
             else
               sample_creds_encoded ← encoder_get_encoded_creds_key enc i;
               lc ← gets link_creds;
               sample_creds_key ← lift (get_creds_key lc sample_creds_encoded);
               r ← lift (read_linked_sample p sample_creds_key lc false);
               mret (LinkedRead r)) st) as ->.
  { unfold read_sample_from_chunk.
    unfold mbind at 1. unfold ST_bind, bind at 1. unfold lift at 1. rewrite Hlocal.
    unfold mbind at 1. unfold ST_bind, bind at 1. unfold lift at 1. rewrite Hchunk.
    done. }
  unfold get_hub_read_sample. rewrite !run_bind.
  destruct (creds_encoder st) as [[enc|e] st1] eqn:Henc; [|done].
  simpl in Hsame. specialize (Hsame eq_refl).
  pose proof (run_pure _ _ _ Hsame (get_path_pure i st1)) as Hpath.
  rewrite !run_bind, Hpath. case_bool_decide; [done|].
  rewrite !run_bind.
  pose proof (encoder_get_encoded_creds_key_pure enc i st1) as Hc.
  destruct (encoder_get_encoded_creds_key enc i st1) as [[code|e] st1'];
    simpl in Hc; subst st1'; [|done].
  unfold_st.
  destruct (get_creds_key (link_creds st1) code) as [k|e]; [|done].
  by destruct (read_linked_sample p k (link_creds st1) false).
Qed.

(** *** Nothing that was read is kept *)










(** *** Rewriting the credentials of one sample *)

(** X8. [update_creds] validates before it changes anything: when the
    registry does not know the sample's credential key, the error of
    [get_encoding] is raised and the engine is exactly as before (the encoder
    was not even accessed, nothing was saved). *)
Theorem update_creds_unknown_key_changes_nothing (sample_index : Z)
    (sample : option LinkedSample) (st : engine) (e : exn) :
  get_encoding (link_creds st) (get_path_creds_key sample).2 (get_path_creds_key sample).1
  = Raise e →
  update_creds sample_index sample st = (Raise e, st).
Proof.
  intros Hcode. unfold update_creds. rewrite run_bind. unfold gets at 1.
  destruct (get_path_creds_key sample) as [p k]. simpl in Hcode.
  rewrite run_bind. unfold lift at 1. by rewrite Hcode.
Qed.

(** X9. An [update_creds] that returns has replaced the encoder of the
    current commit by what [__setitem__] made of it for the encoded key of the
    sample, and has touched no other encoder object.  The registry is saved and
    the warning issued exactly when the key becomes marked as used for the
    first time; in every other case (the key was already marked, or it is not
    marked afterwards either) nothing is saved and no warning is issued. *)
Theorem update_creds_effect (sample_index : Z) (sample : option LinkedSample)
    (st st' : engine) :
  marks_first_use →
  update_creds sample_index sample st = (Ok tt, st') →
  ∃ o st1 enc0 enc1 code,
    creds_encoder st = (Ok (Some o), st1)
    ∧ get_encoding (link_creds st) (get_path_creds_key sample).2
        (get_path_creds_key sample).1 = Ok code
    ∧ objects st1 !! o = Some enc0
    ∧ encoder_setitem enc0 sample_index code = Ok enc1
    ∧ objects st' = <[o := enc1]> (objects st1)
    ∧ (∀ o', o' ≠ o → objects st' !! o' = objects st1 !! o')
    ∧ link_creds st' = (add_to_used_creds (link_creds st) (get_path_creds_key sample).2).2
    ∧ (((get_path_creds_key sample).2 ∉ used_creds_keys (link_creds st))
       ∧ (get_path_creds_key sample).2 ∈ used_creds_keys (link_creds st') →
       log st' = log st ++ [SaveLinkCreds (link_creds st');
                            WarnMissingManagedCreds (link_creds st')])
    ∧ ((get_path_creds_key sample).2 ∈ used_creds_keys (link_creds st) →
       log st' = log st)
    ∧ (¬ (((get_path_creds_key sample).2 ∉ used_creds_keys (link_creds st))
          ∧ (get_path_creds_key sample).2 ∈ used_creds_keys (link_creds st')) →
       log st' = log st)
    ∧ log st' = log st ++
        (if (add_to_used_creds (link_creds st) (get_path_creds_key sample).2).1
         then [SaveLinkCreds (link_creds st'); WarnMissingManagedCreds (link_creds st')]
         else []).
Proof.
  intros Hlaw. unfold update_creds. rewrite run_bind. unfold gets at 1.
  destruct (get_path_creds_key sample) as [p k]. simpl.
  rewrite run_bind. unfold lift at 1.
  destruct (get_encoding (link_creds st) k p) as [code|e] eqn:Hcode; [|intros [=]].
  rewrite run_bind.
  destruct (creds_encoder st) as [[enc|e] st1] eqn:Henc; [|intros [=]].
  destruct (creds_encoder_effect st _ _ Henc) as [(Hlc & Hlog & _) _].
  rewrite run_bind. unfold encoder_setitem_at.
  destruct enc as [o|]; [|intros [=]].
  rewrite run_bind. unfold gets at 1.
  destruct (objects st1 !! o) as [enc0|] eqn:Ho; [|intros [=]].
  rewrite run_bind. unfold lift at 1.
  destruct (encoder_setitem enc0 sample_index code) as [enc1|e] eqn:Hset; [|intros [=]].
  unfold modify at 1. rewrite run_bind.
  unfold link_creds_add_to_used_creds, save_link_creds, warn_missing_managed_creds.
  simpl. rewrite Hlc.
  destruct (Hlaw (link_creds st) k) as (Hsub & _ & Hfirst).
  destruct (add_to_used_creds (link_creds st) k) as [b lc1] eqn:Hadd.
  simpl in Hfirst, Hsub.
  assert (∀ os : list RunLength.t, ∀ o', o' ≠ o → <[o := enc1]> os !! o' = os !! o')
    as Hother.
  { intros os o' Hne. by apply list_lookup_insert_ne. }
  destruct b; unfold_st; simpl.
  - destruct (util_save_link_creds lc1) as [[]|e]; [|intros [=]].
    destruct (util_warn_missing_managed_creds lc1) as [[]|e]; [|intros [=]].
    intros [= <-]. simpl. exists o, st1, enc0, enc1, code.
    split_and!; [done | done | done | done | done | by apply Hother | done | | | |].
    + intros _. rewrite Hlog. by rewrite <- app_assoc.
    + intros Hused. exfalso. destruct (proj1 Hfirst eq_refl) as [Hnew _]. done.
    + intros Hnot. exfalso. apply Hnot. by apply Hfirst.
    + rewrite Hlog. by rewrite <- app_assoc.
  - intros [= <-]. simpl. exists o, st1, enc0, enc1, code.
    split_and!; [done | done | done | done | done | by apply Hother | done | | | |].
    + intros Hf. apply Hfirst in Hf. discriminate.
    + intros _. by rewrite Hlog.
    + intros _. by rewrite Hlog.
    + by rewrite Hlog, app_nil_r.
Qed.

(** *** Registering credentials: failure and the empty case *)

Lemma for_each_raises {S A : Type} (body : A → ST S unit) (xs : list A) :
  ∀ (st st' : S) (e : exn),
    for_each xs body st = (Raise e, st') →
    ∃ pre x post st_k,
      xs = pre ++ x :: post
      ∧ for_each pre body st = (Ok tt, st_k)
      ∧ body x st_k = (Raise e, st').
Proof.
  induction xs as [|x xs IH]; intros st st' e; simpl.
  - intros [=].
  - unfold bind at 1. destruct (body x st) as [[[]|e0] st0] eqn:Hx.
    + intros Hrest. apply IH in Hrest as (pre & y & post & st_k & -> & Hpre & Hy).
      exists (x :: pre), y, post, st_k. split_and!; [done | | done].
      simpl. unfold bind at 1. by rewrite Hx.
    + intros [= <- <-]. exists [], x, xs, st. by split_and!.
Qed.

Lemma register_new_creds_body_raises (enc : option oid)
    (samples : list (option LinkedSample)) (i : nat) (st st' : engine) (e : exn) :
  register_new_creds_body enc samples i st = (Raise e, st') →
  (st' = st
   ∧ (samples !! i = None ∧ exn_cls e = IndexError
      ∨ (∃ sample, samples !! i = Some sample
           ∧ get_encoding (link_creds st) (get_path_creds_key sample).2
               (get_path_creds_key sample).1 = Raise e)
      ∨ (∀ o, enc = Some o → objects st !! o = None)))
  ∨ (∃ sample code o enc0 lc1,
       samples !! i = Some sample
       ∧ get_encoding (link_creds st) (get_path_creds_key sample).2
           (get_path_creds_key sample).1 = Ok code
       ∧ enc = Some o
       ∧ objects st !! o = Some enc0
       ∧ add_to_used_creds (link_creds st) (get_path_creds_key sample).2 = (true, lc1)
       ∧ link_creds st' = lc1
       ∧ objects st' = <[o := RunLength.register_samples code 1 enc0]> (objects st)
       ∧ (util_save_link_creds lc1 = Raise e
          ∧ log st' = log st ++ [SaveLinkCreds lc1]
          ∨ util_save_link_creds lc1 = Ok tt
            ∧ util_warn_missing_managed_creds lc1 = Raise e
            ∧ log st' = log st ++ [SaveLinkCreds lc1; WarnMissingManagedCreds lc1])).
Proof.
  unfold register_new_creds_body, list_getitem. rewrite run_bind. unfold lift at 1.
  destruct (samples !! i) as [sample|] eqn:Hi.
  - destruct (get_path_creds_key sample) as [p k] eqn:Hpk.
    rewrite run_bind. unfold gets at 1. rewrite run_bind. unfold lift at 1.
    destruct (get_encoding (link_creds st) k p) as [code|e0] eqn:Hcode.
    + rewrite run_bind. unfold encoder_register_samples.
      destruct enc as [o|].
      * rewrite run_bind. unfold gets at 1.
        destruct (objects st !! o) as [enc0|] eqn:Ho.
        -- unfold modify at 1. rewrite run_bind.
           unfold link_creds_add_to_used_creds, save_link_creds, warn_missing_managed_creds.
           simpl. destruct (add_to_used_creds (link_creds st) k) as [[|] lc1] eqn:Hadd;
             unfold_st; simpl; [|intros [=]].
           destruct (util_save_link_creds lc1) as [[]|e1] eqn:Hsave.
           ++ destruct (util_warn_missing_managed_creds lc1) as [[]|e2] eqn:Hwarn;
                [intros [=]|].
              intros [= <- <-]. right. exists sample, code, o, enc0, lc1. rewrite Hpk. simpl.
              split_and!; [done | done | done | done | done | done | done |].
              right. split_and!; [done | done |]. by rewrite <- app_assoc.
           ++ intros [= <- <-]. right. exists sample, code, o, enc0, lc1. rewrite Hpk. simpl.
              split_and!; [done | done | done | done | done | done | done |].
              by left.
        -- unfold raise at 1. intros [= <- <-]. left. split; [done|].
           right. right. intros o' [= <-]. done.
      * unfold raise at 1. intros [= <- <-]. left. split; [done|].
        right. right. intros o' [=].
    + intros [= <- <-]. left. split; [done|]. right. left.
      exists sample. rewrite Hpk. simpl. done.
  - intros [= <- <-]. left. split; [done|]. by left.
Qed.

(** X10. [register_new_creds] does not roll back.  When it raises after the
    encoder was obtained, at the sample of index [k], the [k] samples before it
    stay registered: their ids are in the encoder, the registry holds their
    keys as used, and their saves and warnings were issued.  Either nothing
    was done for the failing sample (it is beyond the end of [samples], or its
    credential key is unknown to the registry, or the encoder object cannot be
    found), or the error is that of the save of the registry or of the
    warning: then the failing sample too is already in the encoder and its key,
    used for the first time, is already marked in the registry. *)
Theorem register_new_creds_keeps_registered_prefix (num_samples_added : Z)
    (samples : list (option LinkedSample)) (st st1 st' : engine)
    (enc : option oid) (e : exn) :
  marks_first_use →
  creds_encoder st = (Ok enc, st1) →
  register_new_creds num_samples_added samples st = (Raise e, st') →
  ∃ k codes evs lc_k,
    k < Z.to_nat num_samples_added
    ∧ length (take k samples) = k
    ∧ length codes = k
    ∧ registers (link_creds st1) (take k samples) codes evs lc_k
    ∧ ((link_creds st' = lc_k
        ∧ log st' = log st1 ++ evs
        ∧ (∀ o enc0, enc = Some o → objects st1 !! o = Some enc0 →
             objects st' !! o = Some (register_all codes enc0)
             ∧ RunLength.num_samples (register_all codes enc0)
               = RunLength.num_samples enc0 + k)
        ∧ (samples !! k = None ∧ exn_cls e = IndexError
           ∨ (∃ sample, samples !! k = Some sample
                ∧ get_encoding (link_creds st') (get_path_creds_key sample).2
                    (get_path_creds_key sample).1 = Raise e)
           ∨ (∀ o, enc = Some o → objects st' !! o = None)))
       ∨ (∃ sample code,
            samples !! k = Some sample
            ∧ get_encoding lc_k (get_path_creds_key sample).2
                (get_path_creds_key sample).1 = Ok code
            ∧ ((get_path_creds_key sample).2 ∉ used_creds_keys lc_k)
            ∧ (get_path_creds_key sample).2 ∈ used_creds_keys (link_creds st')
            ∧ link_creds st' = (add_to_used_creds lc_k (get_path_creds_key sample).2).2
            ∧ (∀ o enc0, enc = Some o → objects st1 !! o = Some enc0 →
                 objects st' !! o = Some (register_all (codes ++ [code]) enc0)
                 ∧ RunLength.num_samples (register_all (codes ++ [code]) enc0)
                   = RunLength.num_samples enc0 + k + 1)
            ∧ (util_save_link_creds (link_creds st') = Raise e
               ∧ log st' = log st1 ++ evs ++ [SaveLinkCreds (link_creds st')]
               ∨ util_save_link_creds (link_creds st') = Ok tt
                 ∧ util_warn_missing_managed_creds (link_creds st') = Raise e
                 ∧ log st' = log st1 ++ evs
                     ++ [SaveLinkCreds (link_creds st');
                         WarnMissingManagedCreds (link_creds st')]))).
Proof.
  intros Hlaw Henc. unfold register_new_creds. rewrite run_bind, Henc.
  intros Hloop.
  apply for_each_raises in Hloop as (pre & x & post & st_k & Hseq & Hpre & Hbody).
  set (n := Z.to_nat num_samples_added) in *.
  assert (pre = seq 0 (length pre) ∧ x = length pre ∧ length pre < n) as (Hpre_eq & -> & Hlt).
  { assert (length (seq 0 n) = length pre + S (length post)) as Hlen.
    { rewrite Hseq, length_app. simpl. done. }
    rewrite length_seq in Hlen.
    assert (take (length pre) (seq 0 n) = pre) as Htake.
    { rewrite Hseq. by rewrite take_app_length. }
    assert (seq 0 n !! length pre = Some x) as Hx.
    { rewrite Hseq. by apply list_lookup_middle. }
    apply lookup_seq in Hx as [-> _].
    split_and!; [|done|lia].
    rewrite <- Htake at 1. rewrite take_seq. f_equal. lia. }
  rewrite Hpre_eq in Hpre.
  apply (register_new_creds_loop enc samples Hlaw) in Hpre
    as (codes & evs & Hlen & Hreg & Hlog & Hobj).
  rewrite drop_0 in Hlen, Hreg.
  pose proof (registers_length _ _ _ _ _ Hreg) as Hcodes.
  exists (length pre), codes, evs, (link_creds st_k).
  split_and!; [done | done | by rewrite Hcodes | done |].
  apply register_new_creds_body_raises in Hbody
    as [[-> Hcause]
       |(sample & code & o & enc_k & lc1 & Hi & Hcode & -> & Ho & Hadd & Hlc & Hobjs & Hlogs)].
  - left. split_and!; [done | done | | done].
    intros o enc0 Ho Henc0. split; [by eapply Hobj|].
    destruct (register_all_grows codes enc0) as (Hnum & _ & _).
    rewrite Hnum, Hcodes, Hlen. done.
  - right. exists sample, code.
    destruct (Hlaw (link_creds st_k) (get_path_creds_key sample).2) as (_ & _ & Hfirst).
    rewrite Hadd in Hfirst. simpl in Hfirst.
    destruct (proj1 Hfirst eq_refl) as [Hnew Hmarked].
    rewrite Hadd. simpl. rewrite Hlc.
    split_and!; [done | done | done | done | done | |].
    + intros o' enc0 [= <-] Henc0.
      pose proof (Hobj o enc0 eq_refl Henc0) as Hk. rewrite Ho in Hk. injection Hk as ->.
      unfold register_all at 1 2. rewrite foldl_app. simpl.
      fold (register_all codes enc0). split.
      * rewrite Hobjs. apply list_lookup_insert_eq. by eapply lookup_lt_Some.
      * rewrite num_samples_register_samples.
        destruct (register_all_grows codes enc0) as (Hnum & _ & _).
        rewrite Hnum, Hcodes, Hlen. done.
    + destruct Hlogs as [[Hsave Hlg]|(Hsave & Hwarn & Hlg)].
      * left. split; [done|]. rewrite Hlg, Hlog. by rewrite <- app_assoc.
      * right. split_and!; [done | done |]. rewrite Hlg, Hlog. by rewrite <- app_assoc.
Qed.

(** X11. With nothing to add ([num_samples_added] zero or negative, as
    [range] of it is empty) [register_new_creds] only obtains the encoder:
    no sample is read, nothing is encoded, saved or warned about. *)
Theorem register_new_creds_nothing_to_add (num_samples_added : Z)
    (samples : list (option LinkedSample)) (st : engine) :
  (num_samples_added ≤ 0)%Z →
  (register_new_creds num_samples_added samples st).2 = (creds_encoder st).2
  ∧ log (register_new_creds num_samples_added samples st).2 = log st
  ∧ link_creds (register_new_creds num_samples_added samples st).2 = link_creds st
  ∧ (is_ok (creds_encoder st).1 = true →
       (register_new_creds num_samples_added samples st).1 = Ok tt).
Proof.
  intros Hn. unfold register_new_creds. rewrite run_bind.
  replace (Z.to_nat num_samples_added) with 0 by lia.
  destruct (creds_encoder st) as [[enc|e] st1] eqn:Henc; simpl;
    destruct (creds_encoder_effect st _ _ Henc) as [(Hlc & Hlog & _) _]; done.
Qed.

(** *** Checking a list again *)

(** X12. A list that [check_each_sample] has accepted is stable: checking
    it again returns the same verified samples and changes nothing in it, as
    it no longer holds a tensor view. *)
Theorem check_each_sample_again (self : engine) (samples final : list pyobj)
    (vs : list verified) :
  check_each_sample self samples = (Ok vs, final) →
  check_each_sample self final = (Ok vs, final)
  ∧ Forall (λ o, ∀ t, o ≠ PyTensor t) final.
Proof.
  intros Hrun. apply check_each_sample_outcome in Hrun.
  assert (Forall3 (checked self) final final vs) as Hagain.
  { induction Hrun as [|o o' v l k k' (s & Hres & Hver) _ IH]; constructor; [|done].
    exists s. split; [|done]. destruct Hres; constructor. }
  split.
  - pose proof (check_each_sample_passes self final final vs [] Hagain) as Hpass.
    rewrite !app_nil_r in Hpass. rewrite Hpass. done.
  - clear Hagain.
    induction Hrun as [|o o' v l k k' (s & Hres & Hver) _ IH]; [by constructor|].
    constructor; [|done]. intros t. by destruct Hres.
Qed.

End MoreProperties.

(** ** hub.util.notebook *)



Import Demo.
Local Open Scope list_scope.

Lemma demo_marks_first_use : marks_first_use.
Proof.
  intros lc k. simpl. unfold d_add_to_used_creds, d_used_creds_keys.
  case_bool_decide as Hk; simpl.
  - split_and!; [done | apply union_subseteq_l |].
    split; [done | intros [Hnot _]]. exfalso. apply Hnot.
    by apply elem_of_list_to_set.
  - change (list_to_set (k :: used lc) : gset creds_key)
      with ({[k]} ∪ list_to_set (used lc) : gset creds_key).
    split_and!.
    + apply union_subseteq_r.
    + intros x. rewrite !elem_of_union. tauto.
    + split; [intros _ | done]. split.
      * by rewrite elem_of_list_to_set.
      * apply elem_of_union_l. by apply elem_of_singleton.
Qed.

(** The readiness scenario of the spec: the key "gcp" is declared and used
    but has no secret, so [check_link_ready] fails naming it; once it is
    populated the check passes. *)
Lemma check_link_ready_warm_witness :
  (∃ e, (check_link_ready warm).1 = Raise e)
  ∧ (check_link_ready (engine_of lc_ready cache_c1 "c1" (Some 0) (Some "c1") [enc_c1])).1
    = Ok tt.
Proof.
  split.
  - apply (proj1 (check_link_ready_iff_missing_used warm)).
    intros Hempty.
    assert (Some "gcp" ∈ (∅ : gset creds_key)) as Hin; [|by apply not_elem_of_empty in Hin].
    rewrite <- Hempty. apply elem_of_intersection. split.
    + apply elem_of_list_to_set. cbv [missing_keys link_creds warm engine_of imports
        d_missing_keys lc0 creds_keys populated]. simpl. repeat constructor.
    + apply elem_of_list_to_set. repeat constructor.
  - reflexivity.
Defined.

(** Frame 3 of sample 0 is asked for as a single integer; the array returned
    still has its frame axis, of length one. *)
Lemma get_video_sample_single_frame_witness :
  get_video_sample 0 frame_3 warm = (Ok one_frame, warm)
  ∧ shape one_frame = [1; 4; 4; 3]
  ∧ ∃ values url nframes shape_rest start stop step reverse,
      frame_3 = PyIndex values
      ∧ get_video_url 0 warm = (Ok url, warm)
      ∧ _read_video_shape url = Ok (nframes :: shape_rest)
      ∧ normalize_index (if decide (1 < length values) then values !! 1 else None) nframes
        = Ok (start, stop, step, reverse)
      ∧ _decompress_video url start stop step reverse = Ok one_frame.
Proof.
  assert (get_video_sample 0 frame_3 warm = (Ok one_frame, warm)) as Hrun
    by reflexivity.
  split; [exact Hrun|]. split; [reflexivity|].
  exact (get_video_sample_returns_decoded_frames 0 frame_3 warm warm one_frame Hrun).
Defined.

(** A list with [None] and a numpy array: the array is rejected by type. *)
Lemma check_each_sample_rejects_array_witness :
  check_each_sample warm [PyNone; PyOther "numpy.ndarray"]
  = (Raise (expected_linked_sample (PyOther "numpy.ndarray")),
     [PyNone; PyOther "numpy.ndarray"]).
Proof.
  assert (checked warm PyNone PyNone (Unread None)) as Hnone.
  { exists None. split; [constructor | reflexivity]. }
  exact (proj1 (proj1 (proj2 (check_each_sample_accepts_exactly warm
                                [PyNone; PyOther "numpy.ndarray"]))
                  [PyNone] [PyNone] [Unread None] (PyOther "numpy.ndarray") []
                  eq_refl
                  (Forall3_cons _ _ _ _ _ _ _ Hnone (Forall3_nil _))
                  eq_refl)).
Defined.

(** Two samples are appended on the new commit "c2": one with the key "aws",
    one without a key. *)
Lemma register_new_creds_stale_witness :
  register_new_creds 2 appended stale = (Ok tt, stale_registered)
  ∧ ∃ enc st1 codes evs,
      creds_encoder stale = (Ok enc, st1)
      ∧ length codes = 2
      ∧ registers (link_creds st1) (take 2 appended) codes evs (link_creds stale_registered)
      ∧ log stale_registered = log st1 ++ evs.
Proof.
  assert (register_new_creds 2 appended stale = (Ok tt, stale_registered)) as Hrun
    by reflexivity.
  split; [exact Hrun|].
  destruct (register_new_creds_encodes_and_saves_on_first_use 2 appended stale
              stale_registered demo_marks_first_use Hrun)
    as (enc & st1 & codes & evs & Henc & _ & Hlen & Hreg & Hlog & _).
  exists enc, st1, codes, evs. split_and!; [exact Henc | exact Hlen | exact Hreg | exact Hlog].
Defined.

(** Sample 0 is stored on S3 with the key "aws": the URL is presigned.
    Sample 2 is a local file: its path is returned as it is. *)
Lemma get_video_url_warm_witness :
  get_video_url 0 warm = (Ok "https://signed.example/s3/s3://bucket/a.mp4", warm)
  ∧ get_video_url 2 warm = (Ok "/data/b.mp4", warm).
Proof.
  assert (creds_encoder warm = (Ok (Some 0), warm)) as Henc by reflexivity.
  split.
  - exact (proj1 (proj2 (get_video_url_dispatch warm warm 0 (Some 0)
                           "s3://bucket/a.mp4" 1 (Some "aws")
                           Henc eq_refl eq_refl eq_refl))
             eq_refl (Ok (Some "aws", "s3")) lc0 eq_refl).
  - exact (proj2 (proj2 (get_video_url_dispatch warm warm 2 (Some 0)
                           "/data/b.mp4" 0 None
                           Henc eq_refl eq_refl eq_refl))
             eq_refl).
Defined.

(** Sample 1 has an empty path: the result is the array of length zero. *)
Lemma get_basic_sample_empty_witness :
  ∃ a, get_basic_sample 1 (PyIndex [IInt 1]) false warm = (Ok a, warm)
       ∧ a = np_ones one [0] ∧ shape a = [0] ∧ ndim a = 1 ∧ data a = [].
Proof.
  assert (creds_encoder warm = (Ok (Some 0), warm)) as Henc by reflexivity.
  exact (proj1 (get_basic_sample_empty_or_resolved warm warm 1 (Some 0) ""
                  (PyIndex [IInt 1]) false Henc eq_refl) eq_refl).
Defined.

(** After the checkout of "c2" the engine still holds the encoder of "c1":
    the access does not return it, and what it returns is recorded for "c2". *)
Lemma creds_encoder_stale_witness :
  creds_encoder stale = (Ok (Some 1), stale_reloaded)
  ∧ _creds_encoder stale = Some 0
  ∧ _creds_encoder_commit_id stale_reloaded = Some "c2"
  ∧ ¬ holds_current_encoder (checkout "c1" stale_reloaded)
  ∧ ∃ enc, _creds_encoder stale_reloaded = Some enc
           ∧ obtained_for_current_commit stale enc.
Proof.
  assert (creds_encoder stale = (Ok (Some 1), stale_reloaded)) as Hrun
    by reflexivity.
  assert (¬ holds_current_encoder stale) as Hmiss.
  { intros [_ Hc]. discriminate. }
  split; [exact Hrun|]. split; [reflexivity|].
  destruct (creds_encoder_scoped_to_commit stale) as (_ & _ & Hok & Hany).
  destruct (Hok _ _ Hrun) as (_ & Hrec & _ & Hholds & Hco).
  destruct (Hany _ _ Hrun) as (_ & _ & Hfor & _).
  split; [exact Hrec|]. split; [apply Hco; discriminate|].
  exact (Hfor Hmiss Hholds).
Defined.

(** The same on a cache opened read-only: the write of the new encoder is
    refused, and the new encoder is returned all the same. *)
Lemma creds_encoder_read_only_witness :
  ∃ st', creds_encoder stale_read_only = (Ok (Some 1), st')
         ∧ _creds_encoder st' = Some 1
         ∧ _creds_encoder_commit_id st' = Some "c2"
         ∧ objects st' !! 1 = Some RunLength.empty
         ∧ meta_cache st' = cache_c2_read_only.
Proof.
  assert (¬ holds_current_encoder stale_read_only) as Hmiss.
  { intros [_ Hc]. discriminate. }
  assert (cache_getitem (meta_cache stale_read_only) (current_key stale_read_only)
          = (Raise (Exn KeyError [Lit "versions/c2/videos/creds_index"]),
             meta_cache stale_read_only)) as Hget by reflexivity.
  assert (cache_setitem (meta_cache stale_read_only) (current_key stale_read_only)
            (length (objects stale_read_only))
          = (Raise (Exn ReadOnlyModeError []), meta_cache stale_read_only)) as Hset
    by reflexivity.
  exact (proj1 (proj1 (proj1 (creds_encoder_swallows_read_only_only stale_read_only Hmiss)
                         _ _ _ _ Hget eq_refl Hset)
                  eq_refl)
           cache_c2_read_only eq_refl).
Defined.

(** A view of a link tensor before and after a sample of a wrong type: the
    first is overwritten, the loop stops at the wrong type, the rest is as it
    was. *)
Lemma check_each_sample_in_place_witness :
  check_each_sample warm mixed
  = (Raise (expected_linked_sample (PyOther "int")),
     [PyNone; PyLinkedSample (mkLinkedSample "a.png" None);
      PyOther "int"; PyTensor (mkTensor true (mkLinkedSample "b.png" None))])
  ∧ ∀ final, (check_each_sample warm mixed).2 = final →
      length final = 4 ∧ final !! 0 = Some PyNone.
Proof.
  assert (check_each_sample warm mixed
          = (Raise (expected_linked_sample (PyOther "int")),
             [PyNone; PyLinkedSample (mkLinkedSample "a.png" None);
              PyOther "int"; PyTensor (mkTensor true (mkLinkedSample "b.png" None))]))
    as Hrun by reflexivity.
  split; [exact Hrun|]. intros final Hfinal.
  rewrite Hrun in Hfinal. simpl in Hfinal. subst final.
  destruct (check_each_sample_mutates_in_place warm mixed _ _ Hrun)
    as (Hlen & _ & Hkeep & _).
  split; [exact Hlen|]. apply (Hkeep 0 PyNone eq_refl). discriminate.
Defined.

(** ** The further properties at work *)

Import DemoChunks.

Lemma creds_encoder_repeatable_witness :
  creds_encoder stale_reloaded = (Ok (Some 1), stale_reloaded).
Proof.
  exact (creds_encoder_repeatable stale stale_reloaded (Some 1) eq_refl).
Defined.

Lemma creds_encoder_exists_after_access_witness :
  creds_encoder_exists stale_reloaded = (Ok true, stale_reloaded).
Proof.
  exact (creds_encoder_exists_after_access stale stale_reloaded (Some 1) eq_refl).
Defined.

Lemma creds_encoder_creates_when_absent_witness :
  Some 1 = Some (length (objects stale))
  ∧ objects stale_reloaded = objects stale ++ [RunLength.empty]
  ∧ (∀ o e, objects stale !! o = Some e → objects stale_reloaded !! o = Some e)
  ∧ objects stale_reloaded !! length (objects stale) = Some RunLength.empty.
Proof.
  exact (creds_encoder_creates_when_absent stale stale_reloaded (Some 1) eq_refl eq_refl).
Defined.

Lemma read_methods_agree_witness :
  get_hub_read_sample 2 warm = (Ok (Some (mkArray [2; 2] [1; 2; 3; 4]%Z)), warm)
  ∧ get_video_url 2 warm = (Ok "/data/b.mp4", warm).
Proof.
  destruct (read_methods_agree_with_linked_sample 2 warm warm
              (mkLinkedSample "/data/b.mp4" None) eq_refl) as (Hread & Hlocal & _).
  split; [exact Hread | exact (Hlocal eq_refl)].
Defined.

Lemma empty_sample_shape_witness :
  read_shape_for_sample 1 warm = (Ok [0], warm)
  ∧ ∀ index fetch_chunks,
      ∃ a, get_basic_sample 1 index fetch_chunks warm = (Ok a, warm)
           ∧ Ok (shape a) = (read_shape_for_sample 1 warm).1.
Proof.
  exact (empty_sample_shape_is_shape_of_its_array 1 warm warm eq_refl).
Defined.

Lemma read_sample_from_chunk_agrees_witness :
  read_sample_from_chunk 2 stored_paths true false true warm
  = (Ok (LinkedRead (mkArray [2; 2] [1; 2; 3; 4]%Z)), warm).
Proof.
  exact (read_sample_from_chunk_agrees 2 2 stored_paths true false true
           "/data/b.mp4" [] warm eq_refl eq_refl (λ _, eq_refl)).
Defined.

Lemma update_creds_unknown_key_witness :
  update_creds 1 (Some undeclared_sample) warm
  = (Raise (Exn KeyError [Lit "Creds key does not exist"]), warm).
Proof.
  exact (update_creds_unknown_key_changes_nothing 1 (Some undeclared_sample) warm
           (Exn KeyError [Lit "Creds key does not exist"]) eq_refl).
Defined.

Lemma update_creds_effect_witness :
  update_creds 1 (Some aws_sample) unused = (Ok tt, unused_updated)
  ∧ ∃ o st1 enc0 enc1 code,
      creds_encoder unused = (Ok (Some o), st1)
      ∧ objects st1 !! o = Some enc0
      ∧ encoder_setitem enc0 1 code = Ok enc1
      ∧ objects unused_updated = <[o := enc1]> (objects st1).
Proof.
  assert (update_creds 1 (Some aws_sample) unused = (Ok tt, unused_updated)) as Hrun
    by reflexivity.
  split; [exact Hrun|].
  destruct (update_creds_effect 1 (Some aws_sample) unused unused_updated
              demo_marks_first_use Hrun)
    as (o & st1 & enc0 & enc1 & code & Henc & _ & Ho & Hset & Hobj & _).
  exists o, st1, enc0, enc1, code. split_and!; [exact Henc | exact Ho | exact Hset | exact Hobj].
Defined.

Lemma register_new_creds_keeps_prefix_witness :
  register_new_creds 3 appended stale
  = (Raise (Exn IndexError [Lit "list index out of range"]), stale_registered)
  ∧ ∃ k codes evs,
      k < 3
      ∧ length codes = k
      ∧ registers (link_creds stale_reloaded) (take k appended) codes evs
          (link_creds stale_registered)
      ∧ log stale_registered = log stale_reloaded ++ evs.
Proof.
  assert (register_new_creds 3 appended stale
          = (Raise (Exn IndexError [Lit "list index out of range"]), stale_registered))
    as Hrun by reflexivity.
  split; [exact Hrun|].
  destruct (register_new_creds_keeps_registered_prefix 3 appended stale stale_reloaded
              stale_registered (Some 1) _ demo_marks_first_use eq_refl Hrun)
    as (k & codes & evs & lc_k & Hk & _ & Hlen & Hreg
        & [(Hlc & Hlog & _)
          |(sample & code & _ & _ & _ & _ & _ & _ & [[Hsave _]|(_ & Hwarn & _)])]).
  - exists k, codes, evs. rewrite <- Hlc in Hreg.
    split_and!; [exact Hk | exact Hlen | exact Hreg | exact Hlog].
  - discriminate Hsave.
  - discriminate Hwarn.
Defined.

Lemma register_new_creds_nothing_to_add_witness :
  (register_new_creds (-2) appended stale).2 = (creds_encoder stale).2
  ∧ log (register_new_creds (-2) appended stale).2 = log stale
  ∧ link_creds (register_new_creds (-2) appended stale).2 = link_creds stale
  ∧ (is_ok (creds_encoder stale).1 = true →
       (register_new_creds (-2) appended stale).1 = Ok tt).
Proof.
  apply (register_new_creds_nothing_to_add (-2) appended stale). lia.
Defined.

Lemma check_each_sample_again_witness :
  check_each_sample warm [PyNone; PyLinkedSample (mkLinkedSample "a.png" None)]
  = (Ok [Unread None; Loaded (mkArray [2; 2] [1; 2; 3; 4]%Z)],
     [PyNone; PyLinkedSample (mkLinkedSample "a.png" None)])
  ∧ Forall (λ o, ∀ t, o ≠ PyTensor t)
      [PyNone; PyLinkedSample (mkLinkedSample "a.png" None)].
Proof.
  exact (check_each_sample_again warm [PyNone; PyTensor view_a]
           [PyNone; PyLinkedSample (mkLinkedSample "a.png" None)]
           [Unread None; Loaded (mkArray [2; 2] [1; 2; 3; 4]%Z)] eq_refl).
Defined.


